(** * CURE clustering (pyclustering/clustering/cure.py): a shallow embedding

    The file follows cure.py function by function; the elbow method of
    pyclustering/cluster/elbow.py is embedded in the module [Elbow].
    Numbers are exact rationals ([Q]); [float('inf')] is the extra value
    [Inf] of [dist].
    A [cure_cluster] object is an entry of a store ([heap]) and is named by its
    position there ([ident]): the queue, the [closest] links and the payloads
    of the spatial index hold identities, so Python's [is] is equality of
    identities and a field assignment is an update of the store.
    Exceptions are the [Raise] results of the [result] monad. *)

From Stdlib Require Import QArith Qabs ZArith Lia.
From stdpp Require Import base option list.

(** ** Exceptions *)

Inductive exn : Type :=
| ValueError          (* list.remove(x): x not in list *)
| IndexError          (* sequence index out of range *)
| TypeError           (* None used as a sequence *)
| ZeroDivisionError.

Inductive result (A : Type) : Type :=
| Ok (a : A)
| Raise (e : exn).
Arguments Ok {A} a.
Arguments Raise {A} e.

#[export] Instance result_ret : MRet result := fun _ a => Ok a.
#[export] Instance result_bind : MBind result := fun _ _ f m =>
  match m with
  | Ok a => f a
  | Raise e => Raise e
  end.

Definition is_Ok {A} (r : result A) : Prop := exists a, r = Ok a.

(** ** Numbers, points, distances *)

Abbreviation point := (list Q).
Abbreviation ident := nat.

Inductive dist : Type :=
| Fin (q : Q)
| Inf.

Definition Qltb (x y : Q) : bool := negb (Qle_bool y x).

(** [a < b] on floats that may be [inf]. *)
Definition dist_ltb (a b : dist) : bool :=
  match a, b with
  | Fin x, Fin y => Qltb x y
  | Fin _, Inf => true
  | Inf, _ => false
  end.

(** [a <= b]. *)
Definition dist_leb (a b : dist) : bool :=
  match a, b with
  | Fin x, Fin y => Qle_bool x y
  | _, Inf => true
  | Inf, Fin _ => false
  end.

(** Python's [==] on two lists of numbers. *)
Fixpoint point_eqb (a b : point) : bool :=
  match a, b with
  | [], [] => true
  | x :: a', y :: b' => Qeq_bool x y && point_eqb a' b'
  | _, _ => false
  end.

(** [==] on values that are a point or [None]. *)
Definition opoint_eqb (a b : option point) : bool :=
  match a, b with
  | None, None => true
  | Some p, Some q => point_eqb p q
  | _, _ => false
  end.

(** [l[i]] for a non-negative index. *)
Definition getitem {A} (l : list A) (i : nat) : result A :=
  match l !! i with
  | Some x => Ok x
  | None => Raise IndexError
  end.

(** [l[i]] for any integer index: negative indices count from the end. *)
Definition getitem_Z {A} (l : list A) (i : Z) : result A :=
  if (i <? 0)%Z then
    if (i + Z.of_nat (length l) <? 0)%Z then Raise IndexError
    else getitem l (Z.to_nat (i + Z.of_nat (length l)))
  else getitem l (Z.to_nat i).

(** [l.remove(x)]: deletes the first occurrence, [ValueError] if there is none. *)
Fixpoint list_remove (x : ident) (l : list ident) : result (list ident) :=
  match l with
  | [] => Raise ValueError
  | y :: l' =>
      if Nat.eqb y x then Ok l'
      else l'' ← list_remove x l'; Ok (y :: l'')
  end.

(** ** class cure_cluster *)

Record cure_cluster : Type := mk_cluster {
  points : list point;
  mean : option point;
  rep : list point;
  closest : option ident;
  distance : dist;
  ditance : option dist   (* the attribute that line 150 creates *)
}.

(** [cure_cluster(point)] and [cure_cluster()]. *)
Definition cure_cluster_new (p : option point) : cure_cluster :=
  match p with
  | Some p =>
      {| points := [p]; mean := Some p; rep := [p];
         closest := None; distance := Inf; ditance := None |}
  | None =>
      {| points := []; mean := None; rep := [];
         closest := None; distance := Inf; ditance := None |}
  end.

#[export] Instance cure_cluster_inhabited : Inhabited cure_cluster :=
  populate (cure_cluster_new None).

Definition set_closest (c : option ident) (x : cure_cluster) : cure_cluster :=
  {| points := points x; mean := mean x; rep := rep x;
     closest := c; distance := distance x; ditance := ditance x |}.

Definition set_distance (d : dist) (x : cure_cluster) : cure_cluster :=
  {| points := points x; mean := mean x; rep := rep x;
     closest := closest x; distance := d; ditance := ditance x |}.

Definition set_ditance (d : dist) (x : cure_cluster) : cure_cluster :=
  {| points := points x; mean := mean x; rep := rep x;
     closest := closest x; distance := distance x; ditance := Some d |}.

(** The store of cluster objects; [h !!! i] reads object [i], [update] assigns
    to its fields. *)
Abbreviation heap := (list cure_cluster).

Definition update (i : ident) (f : cure_cluster -> cure_cluster) (h : heap) : heap :=
  <[i := f (h !!! i)]> h.

(** ** The spatial index (pyclustering.support.kdtree) *)

(** The k-d tree is not part of the sources: the engine is written against
    its three operations, which are the fields of this interface.  A query
    yields pairs of a distance and a node; a node is [None] or carries the
    identity of its payload. *)
Class SpatialIndex (T : Type) : Type := {
  kd_empty : T;
  kd_insert : point -> ident -> T -> T;
  kd_remove : point -> T -> T;
  kd_find_nearest_dist_nodes : point -> dist -> T -> list (Q * option ident)
}.

(** ** class cure *)

Section Engine.

(** [euclidean_distance] is imported from pyclustering.support, which is not
    part of the sources; the engine only compares its values.  It is a
    function here, which is what it is on points of one common dimension;
    on points of different dimensions the real one may raise, so the
    statements about a constructor that returns are made for points of one
    dimension, or for a constructor that has returned. *)
Variable euclidean_distance : point -> point -> Q.

Context {T : Type} `{SpatialIndex T}.

Record cure : Type := mk_cure {
  pointer_data : list point;
  number_cluster : Z;
  number_represent_points : Z;
  compression : Q;
  objects : heap;                  (* every cure_cluster created so far *)
  queue : list ident;
  tree : T;
  clusters : option (list (list point))
}.

(** *** __cluster_distance *)

Definition cluster_distance (cluster1 cluster2 : cure_cluster) : dist :=
  foldl (fun distance ri =>
    foldl (fun distance rk =>
      let d := Fin (euclidean_distance ri rk) in
      if dist_ltb d distance then d else distance) distance (rep cluster2))
    Inf (rep cluster1).

(** *** __merge_clusters *)

(** Lines 243-246: the mean of the merged cluster. *)
Definition merged_mean (cluster1 cluster2 : cure_cluster) : result point :=
  match mean cluster1 with
  | None => Raise TypeError
  | Some mean1 =>
      let n1 := length (points cluster1) in
      let n2 := length (points cluster2) in
      mapM (fun index =>
        m1 ← getitem mean1 index;
        mean2 ← (match mean cluster2 with
                 | Some m => Ok m
                 | None => Raise TypeError
                 end);
        m2 ← getitem mean2 index;
        if Nat.eqb (n1 + n2) 0 then Raise ZeroDivisionError
        else Ok ((inject_Z (Z.of_nat n1) * m1 + inject_Z (Z.of_nat n2) * m2)
                 / inject_Z (Z.of_nat (n1 + n2)))%Q)
      (seq 0 (length mean1))
  end.

(** Lines 254-265: one scan over the points; the running maximum is replaced
    on "greater or equal". *)
Fixpoint farthest_scan (measure : point -> result Q) (pts : list point)
    (maximal_distance : Q) (maximal_point : option point) : result (option point) :=
  match pts with
  | [] => Ok maximal_point
  | p :: pts' =>
      minimal_distance ← measure p;
      if Qle_bool maximal_distance minimal_distance
      then farthest_scan measure pts' minimal_distance (Some p)
      else farthest_scan measure pts' maximal_distance maximal_point
  end.

(** The distance that iteration [index] of the outer loop measures. *)
Definition measure (index : nat) (mean_ : point) (temporary : list (option point))
    (p : point) : result Q :=
  if Nat.eqb index 0 then Ok (euclidean_distance p mean_)
  else
    t0 ← getitem temporary 0;
    match t0 with
    | Some q => Ok (euclidean_distance p q)
    | None => Raise TypeError
    end.

(** [x in temporary]. *)
Definition opoint_in (x : option point) (temporary : list (option point)) : bool :=
  existsb (opoint_eqb x) temporary.

(** Lines 250-268, as a loop over the indices still to run. *)
Fixpoint select_loop (indices : list nat) (pts : list point) (mean_ : point)
    (temporary : list (option point)) : result (list (option point)) :=
  match indices with
  | [] => Ok temporary
  | index :: rest =>
      maximal_point ← farthest_scan (measure index mean_ temporary) pts 0%Q None;
      if opoint_in maximal_point temporary
      then select_loop rest pts mean_ temporary
      else select_loop rest pts mean_ (temporary ++ [maximal_point])
  end.

Definition select_representatives (R : Z) (pts : list point) (mean_ : point)
    : result (list (option point)) :=
  select_loop (seq 0 (Z.to_nat R)) pts mean_ [].

(** Lines 270-275: one representative moved towards the mean. *)
Definition shrink (c : Q) (mean_ : point) (dimension : nat) (p : option point)
    : result point :=
  mapM (fun index =>
    match p with
    | None => Raise TypeError
    | Some p =>
        pi ← getitem p index;
        mi ← getitem mean_ index;
        Ok (pi + c * (mi - pi))%Q
    end) (seq 0 dimension).

Definition merge_clusters (R : Z) (c : Q) (cluster1 cluster2 : cure_cluster)
    : result cure_cluster :=
  let pts := points cluster1 ++ points cluster2 in
  mean_ ← merged_mean cluster1 cluster2;
  temporary ← select_representatives R pts mean_;
  reps ← mapM (shrink c mean_ (length mean_)) temporary;
  Ok {| points := pts; mean := Some mean_; rep := reps;
        closest := None; distance := Inf; ditance := None |}.

(** *** __insert_cluster, __relocate_cluster *)

Fixpoint insert_cluster (h : heap) (cluster : ident) (q : list ident) : list ident :=
  match q with
  | [] => [cluster]
  | x :: q' =>
      if dist_ltb (distance (h !!! cluster)) (distance (h !!! x))
      then cluster :: x :: q'
      else x :: insert_cluster h cluster q'
  end.

Definition relocate_cluster (h : heap) (cluster : ident) (q : list ident)
    : result (list ident) :=
  q' ← list_remove cluster q;
  Ok (insert_cluster h cluster q').

(** *** __closest_cluster *)

Definition closest_cluster (tr : T) (h : heap) (cluster : ident) (radius : dist)
    : option ident * dist :=
  foldl (fun best pt =>
    foldl (fun (best : option ident * dist) (cand : Q * option ident) =>
      let '(candidate_distance, kdtree_node) := cand in
      match kdtree_node with
      | Some payload =>
          if dist_ltb (Fin candidate_distance) best.2 && negb (Nat.eqb payload cluster)
          then (Some payload, Fin candidate_distance)
          else best
      | None => best
      end) best (kd_find_nearest_dist_nodes pt radius tr))
    (None, Inf) (rep (h !!! cluster)).

(** *** __insert_represented_points, __delete_represented_points *)

Definition insert_represented_points (h : heap) (cluster : ident) (tr : T) : T :=
  foldl (fun tr pt => kd_insert pt cluster tr) tr (rep (h !!! cluster)).

Definition delete_represented_points (h : heap) (cluster : ident) (tr : T) : T :=
  foldl (fun tr pt => kd_remove pt tr) tr (rep (h !!! cluster)).

(** *** process *)

(** Lines 121-152: the body of [for item in self.__queue].  [h] is the store,
    [requests] is [cluster_relocation_requests]. *)
Definition repair_item (tr : T) (cluster1 cluster2 merged : ident)
    (st : heap * list ident) (item : ident) : heap * list ident :=
  let '(h, requests) := st in
  let d := cluster_distance (h !!! merged) (h !!! item) in
  let h :=
    if dist_ltb d (distance (h !!! merged))
    then update merged (set_distance d) (update merged (set_closest (Some item)) h)
    else h in
  let is_removed (c : option ident) : bool :=
    match c with
    | Some c => Nat.eqb c cluster1 || Nat.eqb c cluster2
    | None => false
    end in
  if is_removed (closest (h !!! item)) then
    let h :=
      if dist_ltb (distance (h !!! item)) d then
        let '(nearest_cluster, nearest_distance) := closest_cluster tr h item d in
        let h := update item (set_distance nearest_distance)
                   (update item (set_closest nearest_cluster) h) in
        match closest (h !!! item) with
        | None => update item (set_distance d) (update item (set_closest (Some merged)) h)
        | Some _ => h
        end
      else update item (set_distance d) (update item (set_closest (Some merged)) h) in
    (h, requests ++ [item])
  else if dist_ltb d (distance (h !!! item)) then
    (update item (set_ditance d) (update item (set_closest (Some merged)) h),
     requests ++ [item])
  else (h, requests).

(** Lines 116-152. *)
Definition repair (tr : T) (cluster1 cluster2 merged : ident) (h : heap)
    (q : list ident) : heap * list ident :=
  match q with
  | [] => (h, [])
  | first :: _ =>
      let h := update merged (set_closest (Some first)) h in
      let h := update merged
                 (set_distance (cluster_distance (h !!! merged) (h !!! first))) h in
      foldl (repair_item tr cluster1 cluster2 merged) (h, []) q
  end.

(** Line 156. *)
Fixpoint relocate_all (h : heap) (requests : list ident) (q : list ident)
    : result (list ident) :=
  match requests with
  | [] => Ok q
  | item :: rest => q' ← relocate_cluster h item q; relocate_all h rest q'
  end.

(** Lines 97-156: one turn of the [while] loop. *)
Definition merge_round (s : cure) : result cure :=
  cluster1 ← getitem (queue s) 0;
  cluster2 ← (match closest (objects s !!! cluster1) with
              | Some c => Ok c
              | None => Raise ValueError       (* queue.remove(None) *)
              end);
  q ← list_remove cluster1 (queue s);
  q ← list_remove cluster2 q;
  let tr := delete_represented_points (objects s) cluster1 (tree s) in
  let tr := delete_represented_points (objects s) cluster2 tr in
  merged_cluster ← merge_clusters (number_represent_points s) (compression s)
                     (objects s !!! cluster1) (objects s !!! cluster2);
  let merged := length (objects s) in
  let h := objects s ++ [merged_cluster] in
  let tr := insert_represented_points h merged tr in
  let '(h, requests) := repair tr cluster1 cluster2 merged h q in
  let q := insert_cluster h merged q in
  q ← relocate_all h requests q;
  Ok {| pointer_data := pointer_data s; number_cluster := number_cluster s;
        number_represent_points := number_represent_points s;
        compression := compression s;
        objects := h; queue := q; tree := tr; clusters := clusters s |}.

(** Line 159. *)
Definition change_representation (s : cure) : cure :=
  {| pointer_data := pointer_data s; number_cluster := number_cluster s;
     number_represent_points := number_represent_points s;
     compression := compression s;
     objects := objects s; queue := queue s; tree := tree s;
     clusters := Some ((fun unit => points (objects s !!! unit)) <$> queue s) |}.

(** Line 96. *)
Definition loop_test (s : cure) : bool :=
  (number_cluster s <? Z.of_nat (length (queue s)))%Z.

(** [process()] with the Python engine ([ccore] is [False]).  [runs s n s']:
    the [while] loop leaves after [n] turns and [process] returns in state
    [s']. *)
Inductive runs : cure -> nat -> cure -> Prop :=
| runs_exit s :
    loop_test s = false -> runs s 0 (change_representation s)
| runs_turn s s1 n s' :
    loop_test s = true -> merge_round s = Ok s1 -> runs s1 n s' ->
    runs s (S n) s'.

(** The same loop as a function; [fuel] bounds the number of turns. *)
Fixpoint process (fuel : nat) (s : cure) : option (result cure) :=
  if loop_test s then
    match fuel with
    | O => None
    | S fuel' =>
        match merge_round s with
        | Ok s1 => process fuel' s1
        | Raise e => Some (Raise e)
        end
    end
  else Some (Ok (change_representation s)).

Definition get_clusters (s : cure) : option (list (list point)) := clusters s.

(** *** __create_queue, __create_kdtree, __init__ *)

(** Lines 292-300: the nearest other cluster of [queue[i]]. *)
Definition nearest_other (h : heap) (q : list ident) (i : nat) : dist * Z :=
  foldl (fun (best : dist * Z) (k : nat) =>
    if negb (Nat.eqb i k) then
      let d := cluster_distance (h !!! (q !!! i)) (h !!! (q !!! k)) in
      if dist_ltb d best.1 then (d, Z.of_nat k) else best
    else best) (Inf, (-1)%Z) (seq 0 (length q)).

(** [list.sort(key = distance)]: the sort is stable, which fixes its result;
    inserting the elements in turn, each behind its equals, computes it. *)
Definition sort_by_distance (h : heap) (q : list ident) : list ident :=
  foldl (fun sorted x => insert_cluster h x sorted) [] q.

Definition create_queue (data : list point) : result (heap * list ident) :=
  let h := (fun p => cure_cluster_new (Some p)) <$> data in
  let q := seq 0 (length data) in
  h ← foldl (fun (acc : result heap) (i : nat) =>
         h ← acc;
         let '(minimal_distance, closest_index_cluster) := nearest_other h q i in
         c ← getitem_Z q closest_index_cluster;
         Ok (update (q !!! i) (set_distance minimal_distance)
               (update (q !!! i) (set_closest (Some c)) h)))
       (Ok h) (seq 0 (length q));
  Ok (h, sort_by_distance h q).

Definition create_kdtree (h : heap) (q : list ident) : T :=
  foldl (fun tr current_cluster => insert_represented_points h current_cluster tr)
    kd_empty q.

(** [cure(data, number_cluster, number_represent_points, compression)]. *)
Definition cure_init (data : list point) (k R : Z) (c : Q) : result cure :=
  '(h, q) ← create_queue data;
  Ok {| pointer_data := data; number_cluster := k;
        number_represent_points := R; compression := c;
        objects := h; queue := q; tree := create_kdtree h q;
        clusters := None |}.

End Engine.

Arguments mk_cure {T}.

(** ** Instances used to run the engine *)

(** Modelled from the spec: the spatial index (pyclustering.support.kdtree) is
    missing from the sources.  Section 4.2 of the specification gives it as a
    collection of indexed points, each with its owner: [insert(point, owner)]
    adds an entry, [remove(point)] deletes the entry with exactly these
    coordinates that was inserted earlier, and the radius query returns every
    indexed point within [radius] of [point], with its distance. *)
Definition list_index : Type := list (point * ident).

Fixpoint list_index_remove (p : point) (tr : list_index) : list_index :=
  match tr with
  | [] => []
  | (q, c) :: tr' =>
      if point_eqb q p then tr' else (q, c) :: list_index_remove p tr'
  end.

Definition list_index_find (ed : point -> point -> Q) (p : point) (radius : dist)
    (tr : list_index) : list (Q * option ident) :=
  omap (fun '(q, c) =>
    if dist_leb (Fin (ed p q)) radius then Some (ed p q, Some c) else None) tr.

#[export] Instance list_index_ops (ed : point -> point -> Q) : SpatialIndex list_index := {
  kd_empty := [];
  kd_insert p c tr := tr ++ [(p, c)];
  kd_remove := list_index_remove;
  kd_find_nearest_dist_nodes := list_index_find ed
}.

(** Modelled from the spec: [euclidean_distance] (pyclustering.support) is
    missing from the sources; the specification names it the Euclidean
    distance between equal-length vectors.  On points of one coordinate this
    is the absolute difference, which is exact on rationals. *)
Definition euclidean_distance_1d (a b : point) : Q :=
  match a, b with
  | [x], [y] => Qabs (x - y)
  | _, _ => 0
  end.

(** Modelled from the spec: [euclidean_distance_sqrt] (pyclustering.support,
    imported at line 29) is missing from the sources.  It is the square of
    the Euclidean distance, the "fast mode" of the comments at lines 258 and
    331; it is exact on rationals in every dimension and orders pairs of
    points as the distance itself does. *)
Definition euclidean_distance_sqrt (a b : point) : Q :=
  foldr Qplus 0%Q (zip_with (fun x y => ((x - y) * (x - y))%Q) a b).

(** A complete run on one-dimensional data with the list index: the
    constructor, then [process()]. *)
Definition run_1d (fuel : nat) (data : list point) (k R : Z) (c : Q)
    : option (result (cure (T := list_index))) :=
  match cure_init euclidean_distance_1d (H := list_index_ops euclidean_distance_1d) data k R c with
  | Ok s => process euclidean_distance_1d (H := list_index_ops euclidean_distance_1d) fuel s
  | Raise e => Some (Raise e)
  end.

(** The same with the squared distance, for data of any dimension. *)
Definition run_sqrt (fuel : nat) (data : list point) (k R : Z) (c : Q)
    : option (result (cure (T := list_index))) :=
  match cure_init euclidean_distance_sqrt (H := list_index_ops euclidean_distance_sqrt) data k R c with
  | Ok s => process euclidean_distance_sqrt (H := list_index_ops euclidean_distance_sqrt) fuel s
  | Raise e => Some (Raise e)
  end.

Definition line (xs : list Q) : list point := (fun x => [x]) <$> xs.

Definition queue_distances {T} (s : cure (T := T)) : list dist :=
  (fun i => distance (objects s !!! i)) <$> queue s.


(** ** Notions used in the statements *)

(** [p] is the point of [pts] farthest by [d], the last such point in
    iteration order when several are equally far. *)
Definition is_last_farthest (d : point -> Q) (pts : list point) (p : point) : Prop :=
  exists l1 l2, pts = l1 ++ p :: l2 /\
    Forall (fun q => (d q <= d p)%Q) l1 /\ Forall (fun q => (d q < d p)%Q) l2.

(** What a cluster holds apart from its neighbour links: [process] creates
    clusters and assigns to [closest], [distance] and [ditance] only. *)
Definition body (x : cure_cluster) : list point * option point * list point :=
  (points x, mean x, rep x).

(** The member points of the clusters of a queue, cluster after cluster. *)
Definition queue_points (h : heap) (q : list ident) : list point :=
  concat ((fun unit => points (h !!! unit)) <$> q).

(** [n] complete turns of the [while] loop of [process] lead from [s] to [s']. *)
Inductive turns {T} `{SpatialIndex T} (ed : point -> point -> Q)
    : cure (T := T) -> nat -> cure (T := T) -> Prop :=
| turns_0 s : turns ed s 0 s
| turns_S s s1 n s' :
    loop_test s = true -> merge_round ed s = Ok s1 -> turns ed s1 n s' ->
    turns ed s (S n) s'.

(** The centroid of a list of points of dimension [d], coordinate by
    coordinate, in exact arithmetic. *)
Definition coordinate (p : point) (i : nat) : Q := nth i p 0%Q.

Definition coordinate_sum (pts : list point) (i : nat) : Q :=
  foldr Qplus 0%Q ((fun p => coordinate p i) <$> pts).

Definition centroid (d : nat) (pts : list point) : point :=
  (fun i => (coordinate_sum pts i / inject_Z (Z.of_nat (length pts)))%Q) <$> seq 0 d.

(** Equality of points as numbers ([1/2] and [2/4] are the same number). *)
Definition point_eq (a b : point) : Prop := Forall2 Qeq a b.

(** A cluster of dimension [d]: it has members, they all have [d]
    coordinates, and so has its mean. *)
Definition well_formed (d : nat) (x : cure_cluster) : Prop :=
  points x <> [] /\ Forall (fun p => length p = d) (points x) /\
  exists m, mean x = Some m /\ length m = d.

Definition mean_exact (d : nat) (x : cure_cluster) : Prop :=
  exists m, mean x = Some m /\ point_eq m (centroid d (points x)).

(** The value computed at lines 243-246. *)
Definition weighted_mean (n1 n2 : nat) (m1 m2 : point) : point :=
  (fun i => ((inject_Z (Z.of_nat n1) * coordinate m1 i
              + inject_Z (Z.of_nat n2) * coordinate m2 i)
             / inject_Z (Z.of_nat (n1 + n2)))%Q) <$> seq 0 (length m1).

(** The candidates that lines 250-268 leave in [temporary]. *)
Definition selected (R : Z) (first second : point) : list (option point) :=
  if (R <=? 0)%Z then []
  else if (R =? 1)%Z then [Some first]
  else if point_eqb second first then [Some first]
  else [Some first; Some second].

(** The value computed at lines 271-273 for a selected point. *)
Definition shrunk (c : Q) (mean_ p : point) : point :=
  (fun i => (coordinate p i + c * (coordinate mean_ i - coordinate p i))%Q)
    <$> seq 0 (length mean_).

Definition cluster_ok (d : nat) (x : cure_cluster) : Prop :=
  well_formed d x /\ mean_exact d x.

(** The invariant of the loop that the statements below rest on: every
    cluster created so far is a cluster of dimension [d] whose mean is the
    centroid of its members, and the queue names created clusters. *)
Definition state_ok {T} `{SpatialIndex T} (d : nat) (s : cure (T := T)) : Prop :=
  Forall (cluster_ok d) (objects s) /\
  Forall (fun i => i < length (objects s)) (queue s).

(** A list of cached distances in ascending order. *)
Fixpoint ascending (l : list dist) : bool :=
  match l with
  | a :: (b :: _) as l' => dist_leb a b && ascending l'
  | _ => true
  end.

(** The selection as the specification words it (section 4.1, steps 2 to
    5): the first representative is the point farthest from the mean; each
    later one is the point, among those not yet selected, farthest from the
    representative selected just before; the last point wins a tie; the
    selection stops after [R] representatives or when no unselected point
    is left. *)
Fixpoint last_farthest (d : point -> Q) (pts : list point) (maximal_distance : Q)
    (maximal_point : option point) : option point :=
  match pts with
  | [] => maximal_point
  | p :: pts' =>
      if Qle_bool maximal_distance (d p)
      then last_farthest d pts' (d p) (Some p)
      else last_farthest d pts' maximal_distance maximal_point
  end.

Fixpoint select_most_recent (ed : point -> point -> Q) (n : nat) (pts : list point)
    (previous : point) (chosen : list point) : list point :=
  match n with
  | O => chosen
  | S n' =>
      let unselected := filter (fun p => negb (existsb (point_eqb p) chosen)) pts in
      match last_farthest (fun p => ed p previous) unselected 0%Q None with
      | None => chosen
      | Some p => select_most_recent ed n' pts p (chosen ++ [p])
      end
  end.

Definition select_as_specified (ed : point -> point -> Q) (R : Z) (pts : list point)
    (mean_ : point) : list point :=
  match Z.to_nat R with
  | O => []
  | S n =>
      match last_farthest (fun p => ed p mean_) pts 0%Q None with
      | None => []
      | Some first => select_most_recent ed n pts first [first]
      end
  end.

(** [a == b] on floats that may be [inf]. *)
Definition dist_eq (a b : dist) : Prop :=
  match a, b with
  | Fin x, Fin y => (x == y)%Q
  | Inf, Inf => True
  | _, _ => False
  end.

(** The cached distances of the clusters of a queue, in queue order. *)
Definition cached_distances (h : heap) (q : list ident) : list dist :=
  (fun i => distance (h !!! i)) <$> q.

(** The queue names created clusters, each at most once. *)
Definition queue_ok {T} `{SpatialIndex T} (s : cure (T := T)) : Prop :=
  NoDup (queue s) /\ Forall (fun i => i < length (objects s)) (queue s).

(** * Elbow method (pyclustering/cluster/elbow.py) *)

Module Elbow.

(** [range(a, b)]. *)
Definition range (a b : Z) : list Z :=
  (fun i => (a + Z.of_nat i)%Z) <$> seq 0 (Z.to_nat (b - a)).

(** [max(l)]: the first of the greatest items, [ValueError] on an empty
    list. *)
Definition py_max (l : list Q) : result Q :=
  match l with
  | [] => Raise ValueError
  | x :: l' => Ok (foldl (fun m y => if Qltb m y then y else m) x l')
  end.

(** [l.index(v)]: the position of the first item equal to [v]. *)
Fixpoint py_index (v : Q) (l : list Q) : result nat :=
  match l with
  | [] => Raise ValueError
  | x :: l' => if Qeq_bool x v then Ok 0 else i ← py_index v l'; Ok (S i)
  end.

Record elbow : Type := mk_elbow {
  data : list point;
  kmin : Z;
  kmax : Z;
  wce : list Q;
  elbows : list Q;
  kvalue : Z
}.

(** [elbow(data, kmin, kmax)]. *)
Definition elbow_init (data : list point) (kmin kmax : Z) : result elbow :=
  if (kmax - kmin <? 3)%Z then Raise ValueError
  else Ok {| data := data; kmin := kmin; kmax := kmax;
             wce := []; elbows := []; kvalue := (-1)%Z |}.

(** Lines 107-109. *)
Definition calculate_elbows (e : elbow) : result elbow :=
  new ← mapM (fun index_elbow =>
           a ← getitem_Z (wce e) (index_elbow - 1);
           b ← getitem_Z (wce e) (index_elbow + 1);
           Ok (a + b)%Q)
         (range 1 (Z.of_nat (length (wce e)) - 1));
  Ok {| data := data e; kmin := kmin e; kmax := kmax e;
        wce := wce e; elbows := elbows e ++ new; kvalue := kvalue e |}.

(** Lines 117-118. *)
Definition find_optimal_kvalue (e : elbow) : result elbow :=
  optimal_elbow_value ← py_max (elbows e);
  i ← py_index optimal_elbow_value (elbows e);
  Ok {| data := data e; kmin := kmin e; kmax := kmax e;
        wce := wce e; elbows := elbows e; kvalue := (Z.of_nat i + 1)%Z |}.

Section Process.

(** The k-means engine and the centre initializer are not part of the
    sources: [total_wce data amount] stands for lines 75-79, the value of
    [instance.get_total_wce()] after k-means has run on [data] with [amount]
    centres, or the exception raised on the way. *)
Variable total_wce : list point -> Z -> result Q.

(** Lines 74-82. *)
Definition process (e : elbow) : result elbow :=
  new ← mapM (total_wce (data e)) (range (kmin e) (kmax e));
  e ← calculate_elbows
        {| data := data e; kmin := kmin e; kmax := kmax e;
           wce := wce e ++ new; elbows := elbows e; kvalue := kvalue e |};
  find_optimal_kvalue e.

End Process.

Definition get_amount (e : elbow) : Z := kvalue e.

Definition get_wce (e : elbow) : list Q := wce e.

End Elbow.

(** ** Facts about the helpers *)

Lemma Qeq_bool_same (x : Q) : Qeq_bool x x = true.
Proof. apply Qeq_bool_iff. reflexivity. Qed.

Lemma point_eqb_refl (p : point) : point_eqb p p = true.
Proof. induction p as [|x p IH]; simpl; [done|]. by rewrite Qeq_bool_same, IH. Qed.

Lemma opoint_eqb_refl (x : option point) : opoint_eqb x x = true.
Proof. destruct x; simpl; [apply point_eqb_refl | done]. Qed.

Lemma Qltb_lt (x y : Q) : Qltb x y = true <-> (x < y)%Q.
Proof.
  unfold Qltb. rewrite negb_true_iff. split.
  - intros Hb. apply Qnot_le_lt. intros Hle.
    apply Qle_bool_iff in Hle. congruence.
  - intros Hlt. destruct (Qle_bool y x) eqn:E; [|done].
    apply Qle_bool_iff in E. exfalso. by apply (Qlt_not_le x y).
Qed.

Lemma Qle_bool_false (x y : Q) : Qle_bool x y = false <-> (y < x)%Q.
Proof.
  rewrite <- Qltb_lt. unfold Qltb. by rewrite negb_true_iff.
Qed.

Lemma bind_Ok {A B} (m : result A) (f : A -> result B) (b : B) :
  m ≫= f = Ok b <-> exists a, m = Ok a /\ f a = Ok b.
Proof.
  destruct m as [a|e]; simpl; split.
  - intros Hf. by exists a.
  - by intros (a' & [= <-] & Hf).
  - done.
  - by intros (a' & [=] & _).
Qed.

Lemma foldl_step {A B} (f : A -> B -> A) (a : A) (x : B) (l : list B) :
  foldl f a (x :: l) = foldl f (f a x) l.
Proof. done. Qed.

Lemma bind_Ok_l {A B} (a : A) (f : A -> result B) : Ok a ≫= f = f a.
Proof. done. Qed.

Lemma getitem_Ok {A} (l : list A) (i : nat) (x : A) :
  getitem l i = Ok x <-> l !! i = Some x.
Proof. unfold getitem. destruct (l !! i); split; congruence. Qed.

Lemma mapM_result_length {A B} (f : A -> result B) (l : list A) (k : list B) :
  mapM f l = Ok k -> length k = length l.
Proof.
  revert k. induction l as [|a l IH]; intros k; simpl.
  - by intros [= <-].
  - intros Hm. apply bind_Ok in Hm as (b & Hb & Hm).
    apply bind_Ok in Hm as (k' & Hk' & [= <-]). simpl. by rewrite (IH k').
Qed.


(** ** The store and the queue *)

Lemma update_length i f (h : heap) : length (update i f h) = length h.
Proof. unfold update. apply length_insert. Qed.

Lemma update_lookup_eq i f (h : heap) :
  i < length h -> update i f h !!! i = f (h !!! i).
Proof. intros Hi. unfold update. by rewrite list_lookup_total_insert_eq. Qed.

Lemma update_lookup_ne i j f (h : heap) :
  i <> j -> update i f h !!! j = h !!! j.
Proof. intros Hij. unfold update. by rewrite list_lookup_total_insert_ne. Qed.

Lemma update_body i f (h : heap) :
  (forall x, body (f x) = body x) -> body <$> (update i f h) = body <$> h.
Proof.
  intros Hf. unfold update. rewrite list_fmap_insert.
  destruct (decide (i < length h)) as [Hi|Hi].
  - apply list_eq. intros j. destruct (decide (i = j)) as [<-|Hij].
    + rewrite list_lookup_insert_eq by (by rewrite length_fmap).
      rewrite list_lookup_fmap. rewrite Hf.
      destruct (lookup_lt_is_Some_2 h i Hi) as [x Hx].
      rewrite Hx. simpl. by rewrite (list_lookup_total_correct _ _ _ Hx).
    + by rewrite list_lookup_insert_ne.
  - rewrite list_insert_ge; [done|]. rewrite length_fmap. lia.
Qed.

Lemma body_lookup (h h' : heap) i :
  body <$> h = body <$> h' -> body (h !!! i) = body (h' !!! i).
Proof.
  intros Hb. assert (Hl : (body <$> h) !! i = (body <$> h') !! i) by by rewrite Hb.
  rewrite !list_lookup_fmap in Hl.
  rewrite !list_lookup_total_alt.
  destruct (h !! i), (h' !! i); simpl in *; congruence.
Qed.

Lemma body_length (h h' : heap) : body <$> h = body <$> h' -> length h = length h'.
Proof. intros Hb. by rewrite <- (length_fmap body h), Hb, length_fmap. Qed.

Lemma list_remove_Permutation x l l' :
  list_remove x l = Ok l' -> l ≡ₚ x :: l'.
Proof.
  revert l'. induction l as [|y l IH]; intros l'; simpl; [done|].
  destruct (Nat.eqb_spec y x) as [->|Hne].
  - by intros [= ->].
  - intros Hr. apply bind_Ok in Hr as (l'' & Hl'' & [= <-]).
    rewrite (IH _ Hl''). apply Permutation_swap.
Qed.

Lemma list_remove_elem x l : x ∈ l -> is_Ok (list_remove x l).
Proof.
  induction l as [|y l IH]; intros Hx; [by apply elem_of_nil in Hx|]. simpl.
  destruct (Nat.eqb_spec y x) as [->|Hne]; [by eexists|].
  apply elem_of_cons in Hx as [->|Hx]; [done|].
  destruct (IH Hx) as [l' ->]. by eexists.
Qed.

Lemma insert_cluster_Permutation h x q : insert_cluster h x q ≡ₚ x :: q.
Proof.
  induction q as [|y q IH]; simpl; [done|].
  destruct (dist_ltb _ _); [done|]. rewrite IH. apply Permutation_swap.
Qed.

Lemma relocate_all_Permutation h requests : forall q q',
  relocate_all h requests q = Ok q' -> q' ≡ₚ q.
Proof.
  induction requests as [|x requests IH]; intros q q'; simpl.
  - by intros [= ->].
  - intros Hr. apply bind_Ok in Hr as (q1 & Hq1 & Hr).
    unfold relocate_cluster in Hq1. apply bind_Ok in Hq1 as (q0 & Hq0 & [= <-]).
    rewrite (IH _ _ Hr), insert_cluster_Permutation.
    symmetry. by apply list_remove_Permutation.
Qed.

Lemma relocate_all_Ok h requests : forall q,
  requests ⊆ q -> is_Ok (relocate_all h requests q).
Proof.
  induction requests as [|x requests IH]; intros q Hsub; simpl; [by eexists|].
  destruct (list_remove_elem x q) as [q0 Hq0]; [apply Hsub; by left|].
  unfold relocate_cluster. rewrite Hq0. simpl. apply IH.
  intros y Hy. rewrite insert_cluster_Permutation.
  rewrite <- (list_remove_Permutation _ _ _ Hq0). apply Hsub. by right.
Qed.

Lemma sort_by_distance_Permutation h q : sort_by_distance h q ≡ₚ q.
Proof.
  unfold sort_by_distance.
  assert (Hgen : forall acc, foldl (fun sorted x => insert_cluster h x sorted) acc q ≡ₚ acc ++ q).
  { induction q as [|x q IH]; intros acc; simpl; [by rewrite app_nil_r|].
    rewrite IH, insert_cluster_Permutation. simpl. by rewrite <- Permutation_middle. }
  by rewrite Hgen.
Qed.

Lemma queue_points_Permutation h q q' :
  q ≡ₚ q' -> queue_points h q ≡ₚ queue_points h q'.
Proof. intros Hq. unfold queue_points. by rewrite Hq. Qed.

Lemma queue_points_body h h' q :
  body <$> h = body <$> h' -> queue_points h q = queue_points h' q.
Proof.
  intros Hb. unfold queue_points. f_equal. apply list_fmap_ext. intros _ i _.
  pose proof (body_lookup h h' i Hb) as Hi. unfold body in Hi. by injection Hi.
Qed.

(** ** One turn of the loop *)

Section Round.

Variable euclidean_distance : point -> point -> Q.
Context {T : Type} `{SpatialIndex T}.

Local Abbreviation merge_round := (merge_round euclidean_distance).
Local Abbreviation repair_item := (repair_item euclidean_distance).
Local Abbreviation repair := (repair euclidean_distance).
Local Abbreviation merge_clusters := (merge_clusters euclidean_distance).

Lemma set_fields_body c d x :
  body (set_closest c x) = body x /\ body (set_distance d x) = body x /\
  body (set_ditance d x) = body x.
Proof. done. Qed.

Ltac body_updates :=
  repeat (rewrite update_body; [| by intros ?]).

Lemma repair_item_body tr c1 c2 m h requests item :
  body <$> (repair_item tr c1 c2 m (h, requests) item).1 = body <$> h.
Proof.
  unfold repair_item.
  set (d := cluster_distance euclidean_distance (h !!! m) (h !!! item)).
  set (h1 := if dist_ltb d (distance (h !!! m)) then _ else h).
  assert (H1 : body <$> h1 = body <$> h).
  { unfold h1. destruct (dist_ltb d _); [|done]. by body_updates. }
  destruct (match closest (h1 !!! item) with Some c => _ | None => false end).
  - destruct (dist_ltb (distance (h1 !!! item)) d); simpl.
    + destruct (closest_cluster tr h1 item d) as [nc nd].
      destruct (closest _); simpl; by body_updates.
    + by body_updates.
  - destruct (dist_ltb d (distance (h1 !!! item))); simpl; [by body_updates | done].
Qed.

Lemma repair_items_body tr c1 c2 m q : forall h requests,
  body <$> (foldl (repair_item tr c1 c2 m) (h, requests) q).1 = body <$> h.
Proof.
  induction q as [|item q IH]; intros h requests; [done|]. rewrite foldl_step.
  destruct (repair_item tr c1 c2 m (h, requests) item) as [h' requests'] eqn:E.
  rewrite IH. by rewrite <- (repair_item_body tr c1 c2 m h requests item), E.
Qed.

Lemma repair_body tr c1 c2 m h q :
  body <$> (repair tr c1 c2 m h q).1 = body <$> h.
Proof.
  unfold repair. destruct q as [|first q]; [done|].
  rewrite repair_items_body. by body_updates.
Qed.

(** The relocation requests are clusters of the queue, in queue order. *)
Lemma repair_item_requests tr c1 c2 m h requests item :
  (repair_item tr c1 c2 m (h, requests) item).2 = requests \/
  (repair_item tr c1 c2 m (h, requests) item).2 = requests ++ [item].
Proof.
  unfold repair_item.
  repeat match goal with
  | |- context [if ?b then _ else _] => destruct b; simpl
  | |- context [let '(_, _) := ?p in _] => destruct p; simpl
  | |- context [match ?o with Some _ => _ | None => _ end] => destruct o; simpl
  end; auto.
Qed.

Lemma repair_items_requests tr c1 c2 m q : forall h requests,
  exists asked, (foldl (repair_item tr c1 c2 m) (h, requests) q).2 = requests ++ asked
                /\ sublist asked q.
Proof.
  induction q as [|item q IH]; intros h requests.
  - exists []. by rewrite app_nil_r.
  - rewrite foldl_step. destruct (repair_item tr c1 c2 m (h, requests) item) as [h' requests'] eqn:E.
    destruct (IH h' requests') as (asked & -> & Hsub).
    destruct (repair_item_requests tr c1 c2 m h requests item) as [Hr|Hr];
      rewrite E in Hr; simpl in Hr; subst requests'.
    + exists asked. split; [done|]. by apply sublist_cons.
    + exists (item :: asked). rewrite <- app_assoc. split; [done|]. by apply sublist_skip.
Qed.

Lemma repair_requests tr c1 c2 m h q : sublist (repair tr c1 c2 m h q).2 q.
Proof.
  unfold repair. destruct q as [|first q]; [done|].
  destruct (repair_items_requests tr c1 c2 m (first :: q)
              (update m (set_distance (cluster_distance euclidean_distance
                 (update m (set_closest (Some first)) h !!! m)
                 (update m (set_closest (Some first)) h !!! first)))
                 (update m (set_closest (Some first)) h)) []) as (asked & Hr & Hsub).
  simpl in *. by rewrite Hr.
Qed.

(** What a turn that completes has done. *)
Lemma merge_round_inv s s' :
  merge_round s = Ok s' ->
  exists c1 c2 q m,
    queue s !! 0 = Some c1 /\ closest (objects s !!! c1) = Some c2 /\
    queue s ≡ₚ c1 :: c2 :: q /\
    merge_clusters (number_represent_points s) (compression s)
      (objects s !!! c1) (objects s !!! c2) = Ok m /\
    body <$> objects s' = body <$> (objects s ++ [m]) /\
    queue s' ≡ₚ length (objects s) :: q /\
    number_cluster s' = number_cluster s /\
    number_represent_points s' = number_represent_points s /\
    compression s' = compression s /\
    pointer_data s' = pointer_data s /\ clusters s' = clusters s.
Proof.
  unfold merge_round. intros Hr.
  apply bind_Ok in Hr as (c1 & Hc1 & Hr). apply getitem_Ok in Hc1.
  apply bind_Ok in Hr as (c2 & Hc2 & Hr).
  apply bind_Ok in Hr as (q1 & Hq1 & Hr).
  apply bind_Ok in Hr as (q & Hq & Hr).
  apply bind_Ok in Hr as (m & Hm & Hr).
  destruct (repair _ _ _ _ _ q) as [h requests] eqn:Hrep.
  apply bind_Ok in Hr as (q' & Hq' & [= <-]). simpl.
  exists c1, c2, q, m. split; [done|]. split.
  { destruct (closest (objects s !!! c1)); by inversion Hc2. }
  split.
  { rewrite (list_remove_Permutation _ _ _ Hq1).
    by rewrite (list_remove_Permutation _ _ _ Hq). }
  split; [done|]. split.
  { replace h with (repair (insert_represented_points (objects s ++ [m]) (length (objects s))
                      (delete_represented_points (objects s) c2
                         (delete_represented_points (objects s) c1 (tree s))))
                      c1 c2 (length (objects s)) (objects s ++ [m]) q).1
      by by rewrite Hrep.
    apply repair_body. }
  split; [|done].
  rewrite (relocate_all_Permutation _ _ _ _ Hq'). apply insert_cluster_Permutation.
Qed.

(** What a turn needs in order to complete. *)
Lemma merge_round_Ok s c1 c2 rest :
  queue s = c1 :: rest -> closest (objects s !!! c1) = Some c2 -> c2 ∈ rest ->
  is_Ok (merge_clusters (number_represent_points s) (compression s)
           (objects s !!! c1) (objects s !!! c2)) ->
  is_Ok (merge_round s).
Proof.
  intros Hq Hc Hin [m Hm]. unfold merge_round. rewrite Hq.
  change (getitem (c1 :: rest) 0) with (Ok c1 : result ident).
  rewrite bind_Ok_l, Hc, bind_Ok_l.
  change (list_remove c1 (c1 :: rest))
    with (if Nat.eqb c1 c1 then Ok rest else l'' ← list_remove c1 rest; Ok (c1 :: l'')).
  rewrite Nat.eqb_refl, bind_Ok_l.
  destruct (list_remove_elem c2 rest Hin) as [q Hq2]. rewrite Hq2, bind_Ok_l.
  rewrite Hm, bind_Ok_l.
  destruct (repair _ _ _ _ _ q) as [h requests] eqn:Hrep.
  destruct (relocate_all_Ok h requests (insert_cluster h (length (objects s)) q))
    as [q' Hq'].
  { pose proof (repair_requests
      (insert_represented_points (objects s ++ [m]) (length (objects s))
         (delete_represented_points (objects s) c2
            (delete_represented_points (objects s) c1 (tree s))))
      c1 c2 (length (objects s)) (objects s ++ [m]) q) as Hsub.
    rewrite Hrep in Hsub. simpl in Hsub.
    intros y Hy. rewrite insert_cluster_Permutation. right.
    by apply (sublist_subseteq _ _ Hsub). }
  rewrite Hq'. by eexists.
Qed.

End Round.

(** ** Merging two clusters *)

Lemma mapM_Ok_fmap {A B} (f : A -> result B) (g : A -> B) (l : list A) :
  (forall x, x ∈ l -> f x = Ok (g x)) -> mapM f l = Ok (g <$> l).
Proof.
  induction l as [|a l IH]; intros Hf; simpl; [done|].
  rewrite (Hf a) by by left. simpl. rewrite IH; [done|].
  intros x Hx. apply Hf. by right.
Qed.

Lemma mapM_Ok_fmap_compose {A B C} (f : A -> result B) (g : C -> A) (h : C -> B)
    (l : list C) :
  (forall x, x ∈ l -> f (g x) = Ok (h x)) -> mapM f (g <$> l) = Ok (h <$> l).
Proof.
  induction l as [|a l IH]; intros Hf; [done|]. rewrite !fmap_cons.
  change (mapM f (g a :: (g <$> l)))
    with (y ← f (g a); k ← mapM f (g <$> l); mret (y :: k)).
  rewrite (Hf a) by by left. rewrite bind_Ok_l, IH; [done|].
  intros x Hx. apply Hf. by right.
Qed.

Lemma inject_nat_nonzero (n : nat) : n <> 0 -> ~ (inject_Z (Z.of_nat n) == 0)%Q.
Proof. intros Hn. unfold Qeq. simpl. lia. Qed.

Lemma coordinate_sum_app pts1 pts2 i :
  (coordinate_sum (pts1 ++ pts2) i == coordinate_sum pts1 i + coordinate_sum pts2 i)%Q.
Proof.
  unfold coordinate_sum. induction pts1 as [|p pts1 IH]; simpl.
  - by rewrite Qplus_0_l.
  - rewrite IH. by rewrite Qplus_assoc.
Qed.

Lemma centroid_length d pts : length (centroid d pts) = d.
Proof. unfold centroid. by rewrite length_fmap, length_seq. Qed.

Lemma centroid_lookup d pts i :
  i < d ->
  centroid d pts !! i
  = Some (coordinate_sum pts i / inject_Z (Z.of_nat (length pts)))%Q.
Proof.
  intros Hi. unfold centroid. rewrite list_lookup_fmap, lookup_seq_lt by done. done.
Qed.

Lemma point_eq_fmap_seq (f g : nat -> Q) d :
  (forall i, i < d -> (f i == g i)%Q) -> point_eq (f <$> seq 0 d) (g <$> seq 0 d).
Proof.
  intros Hfg. unfold point_eq. apply Forall2_fmap, Forall_Forall2_diag.
  apply Forall_forall. intros i Hi. apply Hfg.
  apply elem_of_seq in Hi. lia.
Qed.

Lemma centroid_singleton d p : length p = d -> point_eq p (centroid d [p]).
Proof.
  intros Hp. unfold point_eq. apply Forall2_same_length_lookup. split.
  - by rewrite centroid_length.
  - intros i x y Hx Hy.
    assert (Hi : i < d) by (rewrite <- Hp; by eapply lookup_lt_Some).
    rewrite centroid_lookup in Hy by done. injection Hy as <-.
    unfold coordinate_sum, coordinate. simpl.
    rewrite (nth_lookup_Some _ _ _ _ Hx).
    unfold Qdiv. change (/ inject_Z (Z.of_nat 1))%Q with 1%Q. ring.
Qed.

Section Merge.

Variable euclidean_distance : point -> point -> Q.

Local Abbreviation merge_clusters := (merge_clusters euclidean_distance).

Lemma merged_mean_Ok cluster1 cluster2 m1 m2 :
  mean cluster1 = Some m1 -> mean cluster2 = Some m2 ->
  length m1 <= length m2 ->
  length (points cluster1) + length (points cluster2) <> 0 ->
  merged_mean cluster1 cluster2
  = Ok (weighted_mean (length (points cluster1)) (length (points cluster2)) m1 m2).
Proof.
  intros H1 H2 Hlen Hn. unfold merged_mean, weighted_mean. rewrite H1, H2.
  apply mapM_Ok_fmap. intros i Hi. apply elem_of_seq in Hi.
  destruct (lookup_lt_is_Some_2 m1 i) as [x Hx]; [lia|].
  destruct (lookup_lt_is_Some_2 m2 i) as [y Hy]; [lia|].
  unfold getitem. rewrite Hx. simpl. rewrite Hy. simpl.
  destruct (Nat.eqb_spec (length (points cluster1) + length (points cluster2)) 0);
    [done|].
  unfold coordinate.
  by rewrite (nth_lookup_Some _ _ _ _ Hx), (nth_lookup_Some _ _ _ _ Hy).
Qed.

Lemma weighted_mean_centroid d pts1 pts2 m1 m2 :
  pts1 <> [] -> pts2 <> [] -> length m1 = d -> length m2 = d ->
  point_eq m1 (centroid d pts1) -> point_eq m2 (centroid d pts2) ->
  point_eq (weighted_mean (length pts1) (length pts2) m1 m2)
           (centroid d (pts1 ++ pts2)).
Proof.
  intros Hne1 Hne2 Hl1 Hl2 He1 He2. unfold weighted_mean, centroid.
  rewrite Hl1. apply point_eq_fmap_seq. intros i Hi.
  assert (Hc : forall m pts, length m = d -> point_eq m (centroid d pts) ->
             (coordinate m i == coordinate_sum pts i / inject_Z (Z.of_nat (length pts)))%Q).
  { intros m pts Hl He.
    destruct (lookup_lt_is_Some_2 m i) as [x Hx]; [lia|].
    unfold coordinate. rewrite (nth_lookup_Some _ _ _ _ Hx).
    eapply (Forall2_lookup_lr _ _ _ i x _ He Hx). by apply centroid_lookup. }
  rewrite (Hc m1 pts1 Hl1 He1), (Hc m2 pts2 Hl2 He2).
  rewrite coordinate_sum_app, length_app.
  assert (N1 : length pts1 <> 0) by by destruct pts1.
  assert (N2 : length pts2 <> 0) by by destruct pts2.
  rewrite Nat2Z.inj_add, inject_Z_plus.
  pose proof (inject_nat_nonzero _ N1) as Z1.
  pose proof (inject_nat_nonzero _ N2) as Z2.
  assert (Z12 : ~ (inject_Z (Z.of_nat (length pts1)) + inject_Z (Z.of_nat (length pts2)) == 0)%Q).
  { rewrite <- inject_Z_plus, <- Nat2Z.inj_add. apply inject_nat_nonzero. lia. }
  field. by repeat split.
Qed.

End Merge.

(** ** Selection of the representatives *)

Section Selection.

Variable euclidean_distance : point -> point -> Q.
Hypothesis euclidean_distance_nonneg : forall p q, (0 <= euclidean_distance p q)%Q.

Lemma farthest_scan_ext (f g : point -> result Q) pts :
  (forall p, f p = g p) ->
  forall md mp, farthest_scan f pts md mp = farthest_scan g pts md mp.
Proof.
  intros Hfg. induction pts as [|p pts IH]; intros md mp; simpl; [done|].
  rewrite Hfg. destruct (g p) as [x|e]; simpl; [|done].
  destruct (Qle_bool md x); apply IH.
Qed.

(** The scan either keeps its initial candidate, every point being strictly
    nearer than the initial maximum, or returns the last farthest point. *)
Lemma farthest_scan_spec (d : point -> Q) pts :
  forall md mp, exists r,
    farthest_scan (fun p => Ok (d p)) pts md mp = Ok r /\
    ((r = mp /\ Forall (fun q => (d q < md)%Q) pts) \/
     (exists p, r = Some p /\ (md <= d p)%Q /\ is_last_farthest d pts p)).
Proof.
  induction pts as [|p pts IH]; intros md mp; simpl.
  - exists mp. split; [done|]. left. by split.
  - destruct (Qle_bool md (d p)) eqn:E.
    + apply Qle_bool_iff in E.
      destruct (IH (d p) (Some p)) as (r & Hr & [[-> Hall]|(p' & -> & Hle & l1 & l2 & -> & H1 & H2)]).
      * exists (Some p). split; [done|]. right. exists p. split; [done|]. split; [done|].
        exists [], pts. by repeat split.
      * exists (Some p'). split; [done|]. right. exists p'. split; [done|].
        split; [by eapply Qle_trans|].
        exists (p :: l1), l2. repeat split; [|done]. by constructor.
    + apply Qle_bool_false in E.
      destruct (IH md mp) as (r & Hr & [[-> Hall]|(p' & -> & Hle & l1 & l2 & -> & H1 & H2)]).
      * exists mp. split; [done|]. left. split; [done|]. by constructor.
      * exists (Some p'). split; [done|]. right. exists p'. split; [done|]. split; [done|].
        exists (p :: l1), l2. repeat split; [|done].
        constructor; [|done]. apply Qlt_le_weak. by eapply Qlt_le_trans.
Qed.

Lemma farthest_scan_nonneg (d : point -> Q) pts :
  (forall q, (0 <= d q)%Q) -> pts <> [] ->
  exists p, farthest_scan (fun p => Ok (d p)) pts 0%Q None = Ok (Some p) /\
            is_last_farthest d pts p.
Proof.
  intros Hd Hne.
  destruct (farthest_scan_spec d pts 0%Q None) as (r & Hr & [[-> Hall]|(p & -> & _ & Hp)]).
  - destruct pts as [|q pts]; [done|]. inversion Hall as [|? ? Hq _]; subst.
    exfalso. by apply (Qlt_not_le _ _ Hq).
  - by exists p.
Qed.

Lemma is_last_farthest_unique (d : point -> Q) pts p q :
  is_last_farthest d pts p -> is_last_farthest d pts q -> p = q.
Proof.
  intros (l1 & l2 & -> & H1 & H2) (k1 & k2 & Heq & K1 & K2).
  revert k1 Heq K1. induction l1 as [|x l1 IH]; intros k1 Heq K1; simpl in *.
  - destruct k1 as [|y k1]; simpl in *; [congruence|].
    injection Heq as <- ->. inversion K1 as [|? ? Hy _]; subst.
    apply Forall_app in H2 as [_ H2]. inversion H2 as [|? ? Hq _]; subst.
    exfalso. by apply (Qlt_not_le _ _ Hq).
  - destruct k1 as [|y k1]; simpl in *.
    + injection Heq as <- <-. inversion H1 as [|? ? Hx _]; subst.
      apply Forall_app in K2 as [_ K2]. inversion K2 as [|? ? Hp _]; subst.
      exfalso. by apply (Qlt_not_le _ _ Hp).
    + injection Heq as <- Heq. inversion H1; inversion K1; subst. by eapply IH.
Qed.

(** From the second turn on, the scan measures the distance to
    [temporary[0]], whatever the turn and whatever else was selected. *)
Lemma measure_later index mean_ t0 rest p :
  index <> 0 ->
  measure euclidean_distance index mean_ (Some t0 :: rest) p
  = Ok (euclidean_distance p t0).
Proof. intros Hi. unfold measure. by destruct index. Qed.

Lemma select_loop_later pts mean_ t0 second indices :
  Forall (fun i => i <> 0) indices -> indices <> [] ->
  farthest_scan (fun p => Ok (euclidean_distance p t0)) pts 0%Q None = Ok (Some second) ->
  forall temporary,
    temporary = [Some t0] \/
    (temporary = [Some t0; Some second] /\ point_eqb second t0 = false) ->
    select_loop euclidean_distance indices pts mean_ temporary
    = Ok (if point_eqb second t0 then [Some t0] else [Some t0; Some second]).
Proof.
  intros Hidx Hne Hscan.
  induction Hidx as [|index indices Hi Hrest IH]; [done|]. clear Hne.
  intros temporary Ht. simpl.
  assert (Hm : farthest_scan (measure euclidean_distance index mean_ temporary) pts 0%Q None
               = Ok (Some second)).
  { rewrite <- Hscan. apply farthest_scan_ext. intros p.
    destruct Ht as [-> | [-> _]]; by apply measure_later. }
  rewrite Hm. simpl.
  destruct Ht as [-> | [-> E]]; simpl.
  - rewrite orb_false_r. destruct (point_eqb second t0) eqn:E.
    + destruct indices as [|i' indices']; [done|].
      rewrite IH; [done|done|by left].
    + destruct indices as [|i' indices']; [done|].
      rewrite IH; [done|done|by right].
  - rewrite E, point_eqb_refl. simpl.
    destruct indices as [|i' indices']; [done|].
    rewrite IH; [by rewrite E|done|by right].
Qed.

Lemma select_representatives_selected R pts mean_ first second :
  farthest_scan (fun p => Ok (euclidean_distance p mean_)) pts 0%Q None = Ok (Some first) ->
  farthest_scan (fun p => Ok (euclidean_distance p first)) pts 0%Q None = Ok (Some second) ->
  select_representatives euclidean_distance R pts mean_ = Ok (selected R first second).
Proof.
  intros Hfirst Hsecond. unfold select_representatives, selected.
  destruct (Z.leb_spec R 0) as [HR|HR].
  { replace (Z.to_nat R) with 0 by lia. done. }
  destruct (Z.to_nat R) as [|n] eqn:En; [lia|].
  rewrite <- cons_seq. cbn [select_loop].
  rewrite (farthest_scan_ext _ (fun p => Ok (euclidean_distance p mean_))) by done.
  rewrite Hfirst, bind_Ok_l. cbn [opoint_in existsb app].
  destruct (Z.eqb_spec R 1) as [HR1|HR1].
  { replace n with 0 by lia. done. }
  destruct n as [|n]; [lia|].
  apply select_loop_later; [| done | done | by left].
  apply Forall_forall. intros i Hi. apply elem_of_seq in Hi. lia.
Qed.

Lemma is_last_farthest_elem d (pts : list point) p :
  is_last_farthest d pts p -> p ∈ pts.
Proof. intros (l1 & l2 & -> & _). apply elem_of_app. right. by left. Qed.

Lemma selected_elem R first second x (pts : list point) :
  first ∈ pts -> second ∈ pts -> Some x ∈ selected R first second -> x ∈ pts.
Proof.
  intros H1 H2. unfold selected.
  repeat match goal with |- context [if ?b then _ else _] => destruct b end;
    rewrite ?elem_of_cons, ?elem_of_nil; naive_solver.
Qed.

Lemma selected_all_Some R first second :
  exists l, selected R first second = Some <$> l /\ length l <= 2 /\
            (forall x, x ∈ l -> x = first \/ x = second).
Proof.
  unfold selected.
  repeat match goal with |- context [if ?b then _ else _] => destruct b end.
  - exists []. split; [done|]. split; [simpl; lia|]. by intros x Hx%elem_of_nil.
  - exists [first]. split; [done|]. split; [simpl; lia|].
    intros x Hx%list_elem_of_singleton. by left.
  - exists [first]. split; [done|]. split; [simpl; lia|].
    intros x Hx%list_elem_of_singleton. by left.
  - exists [first; second]. split; [done|]. split; [simpl; lia|].
    intros x. rewrite !elem_of_cons, elem_of_nil. naive_solver.
Qed.

Lemma shrink_Ok c mean_ p :
  length mean_ <= length p ->
  shrink c mean_ (length mean_) (Some p) = Ok (shrunk c mean_ p).
Proof.
  intros Hl. unfold shrink, shrunk. apply mapM_Ok_fmap. intros i Hi.
  apply elem_of_seq in Hi.
  destruct (lookup_lt_is_Some_2 p i) as [x Hx]; [lia|].
  destruct (lookup_lt_is_Some_2 mean_ i) as [y Hy]; [lia|].
  unfold getitem. rewrite Hx. simpl. rewrite Hy. simpl. unfold coordinate.
  by rewrite (nth_lookup_Some _ _ _ _ Hx), (nth_lookup_Some _ _ _ _ Hy).
Qed.

(** Merging two clusters of dimension [d] succeeds, and this is the cluster
    it returns. *)
Lemma merge_clusters_well_formed d R c cluster1 cluster2 :
  well_formed d cluster1 -> well_formed d cluster2 ->
  exists m1 m2 first second l,
    mean cluster1 = Some m1 /\ mean cluster2 = Some m2 /\
    let pts := points cluster1 ++ points cluster2 in
    let mean_ := weighted_mean (length (points cluster1)) (length (points cluster2)) m1 m2 in
    is_last_farthest (fun p => euclidean_distance p mean_) pts first /\
    is_last_farthest (fun p => euclidean_distance p first) pts second /\
    selected R first second = Some <$> l /\
    merge_clusters euclidean_distance R c cluster1 cluster2
    = Ok {| points := pts; mean := Some mean_; rep := shrunk c mean_ <$> l;
            closest := None; distance := Inf; ditance := None |}.
Proof.
  intros (Hne1 & Hd1 & m1 & Hm1 & Hl1) (Hne2 & Hd2 & m2 & Hm2 & Hl2).
  set (pts := points cluster1 ++ points cluster2).
  set (mean_ := weighted_mean (length (points cluster1)) (length (points cluster2)) m1 m2).
  assert (Hpts : pts <> []) by (unfold pts; by destruct (points cluster1)).
  destruct (farthest_scan_nonneg (fun p => euclidean_distance p mean_) pts)
    as (first & Hfirst & Hf1); [done|done|].
  destruct (farthest_scan_nonneg (fun p => euclidean_distance p first) pts)
    as (second & Hsecond & Hs1); [done|done|].
  destruct (selected_all_Some R first second) as (l & Hl & _ & Hin).
  exists m1, m2, first, second, l. do 2 (split; [done|]). cbn zeta.
  fold pts mean_. do 3 (split; [done|]).
  unfold merge_clusters. fold pts.
  assert (Hmm : merged_mean cluster1 cluster2 = Ok mean_).
  { apply merged_mean_Ok; [done|done|lia|].
    destruct (points cluster1); simpl; [done|lia]. }
  rewrite Hmm, bind_Ok_l.
  rewrite (select_representatives_selected R pts mean_ first second Hfirst Hsecond).
  rewrite bind_Ok_l, Hl.
  assert (Hlen : length mean_ = d).
  { unfold mean_, weighted_mean. by rewrite length_fmap, length_seq. }
  assert (Hsh : mapM (shrink c mean_ (length mean_)) (Some <$> l)
                = Ok (shrunk c mean_ <$> l)).
  { apply mapM_Ok_fmap_compose. intros x Hx. apply shrink_Ok. rewrite Hlen.
    assert (Hxp : x ∈ pts).
    { destruct (Hin x Hx) as [-> | ->]; by eapply is_last_farthest_elem. }
    unfold pts in Hxp. apply elem_of_app in Hxp as [Hxp|Hxp].
    - rewrite Forall_forall in Hd1. by rewrite (Hd1 x Hxp).
    - rewrite Forall_forall in Hd2. by rewrite (Hd2 x Hxp). }
  by rewrite Hsh.
Qed.

End Selection.

(** ** The invariant of the loop *)

Lemma cluster_ok_body d x y : body x = body y -> cluster_ok d x -> cluster_ok d y.
Proof.
  unfold body. intros [= Hp Hm Hr] [(Hne & Hd & m & Hm' & Hl) (m' & Hm'' & He)].
  unfold cluster_ok, well_formed, mean_exact. rewrite <- Hp, <- Hm. eauto 10.
Qed.

Lemma Forall_cluster_ok_body d (h h' : heap) :
  body <$> h = body <$> h' -> Forall (cluster_ok d) h -> Forall (cluster_ok d) h'.
Proof.
  intros Hb Hh. apply Forall_lookup. intros i y Hy.
  assert (Hl : (body <$> h) !! i = (body <$> h') !! i) by by rewrite Hb.
  rewrite !list_lookup_fmap, Hy in Hl.
  destruct (h !! i) as [x|] eqn:Hx; [|done].
  assert (Hxy : body x = body y).
  { unfold body. injection Hl. congruence. }
  apply (cluster_ok_body d x y Hxy). by eapply Forall_lookup_1.
Qed.

Lemma cluster_ok_singleton d p : length p = d -> cluster_ok d (cure_cluster_new (Some p)).
Proof.
  intros Hp. split.
  - split; [done|]. split; [by repeat constructor|]. by exists p.
  - exists p. split; [done|]. by apply centroid_singleton.
Qed.

Section Invariant.

Variable euclidean_distance : point -> point -> Q.
Context {T : Type} `{SpatialIndex T}.

Lemma merge_clusters_body R c cluster1 cluster2 m :
  merge_clusters euclidean_distance R c cluster1 cluster2 = Ok m ->
  points m = points cluster1 ++ points cluster2 /\
  exists mean_, merged_mean cluster1 cluster2 = Ok mean_ /\ mean m = Some mean_.
Proof.
  unfold merge_clusters. intros Hm.
  apply bind_Ok in Hm as (mean_ & Hmean & Hm).
  apply bind_Ok in Hm as (temporary & _ & Hm).
  apply bind_Ok in Hm as (reps & _ & [= <-]). simpl. eauto.
Qed.

Lemma merge_clusters_ok d R c cluster1 cluster2 m :
  cluster_ok d cluster1 -> cluster_ok d cluster2 ->
  merge_clusters euclidean_distance R c cluster1 cluster2 = Ok m ->
  cluster_ok d m.
Proof.
  intros [W1 (m1 & Hm1 & E1)] [W2 (m2 & Hm2 & E2)] Hm.
  destruct W1 as (Hne1 & Hd1 & m1' & Hm1' & Hl1).
  destruct W2 as (Hne2 & Hd2 & m2' & Hm2' & Hl2).
  assert (m1' = m1) as -> by congruence. assert (m2' = m2) as -> by congruence.
  apply merge_clusters_body in Hm as (Hp & mean_ & Hmean & Hmm).
  rewrite (merged_mean_Ok _ _ m1 m2) in Hmean; [|done|done|lia|];
    [|destruct (points cluster1); simpl; [done|lia]].
  injection Hmean as <-.
  split.
  - split; [rewrite Hp; by destruct (points cluster1)|].
    split; [rewrite Hp; by apply Forall_app|].
    eexists. split; [done|]. unfold weighted_mean. by rewrite length_fmap, length_seq.
  - eexists. split; [done|]. rewrite Hp. by apply weighted_mean_centroid.
Qed.

Lemma merge_round_state_ok d s s' :
  state_ok d s -> merge_round euclidean_distance s = Ok s' -> state_ok d s'.
Proof.
  intros [Hobj Hq] Hr.
  apply merge_round_inv in Hr
    as (c1 & c2 & q & m & Hhead & Hc & Hperm & Hm & Hb & Hq' & _).
  assert (Hin : forall i, i ∈ queue s -> i < length (objects s)).
  { by apply Forall_forall. }
  assert (Hok : forall i, i ∈ queue s -> cluster_ok d (objects s !!! i)).
  { intros i Hi. destruct (lookup_lt_is_Some_2 (objects s) i (Hin i Hi)) as [x Hx].
    rewrite (list_lookup_total_correct _ _ _ Hx).
    by eapply Forall_lookup_1. }
  assert (H1 : c1 ∈ queue s) by (rewrite Hperm; by left).
  assert (H2 : c2 ∈ queue s) by (rewrite Hperm; right; by left).
  pose proof (merge_clusters_ok d _ _ _ _ m (Hok c1 H1) (Hok c2 H2) Hm) as Hmok.
  split.
  - apply (Forall_cluster_ok_body d (objects s ++ [m]) (objects s')); [by symmetry|].
    apply Forall_app. split; [done|]. constructor; [done|constructor].
  - rewrite (body_length _ _ Hb), length_app, Hq'. simpl.
    constructor; [simpl; lia|]. apply Forall_forall. intros i Hi.
    assert (Hi' : i ∈ queue s) by (rewrite Hperm; by do 2 right).
    specialize (Hin i Hi'). simpl. lia.
Qed.

(** A turn moves member points between clusters and loses or copies none. *)
Lemma merge_round_points d s s' :
  state_ok d s -> merge_round euclidean_distance s = Ok s' ->
  queue_points (objects s') (queue s') ≡ₚ queue_points (objects s) (queue s).
Proof.
  intros [Hobj Hq] Hr.
  apply merge_round_inv in Hr
    as (c1 & c2 & q & m & Hhead & Hc & Hperm & Hm & Hb & Hq' & _).
  apply merge_clusters_body in Hm as (Hp & _).
  rewrite (queue_points_body _ _ _ Hb), (queue_points_Permutation _ _ _ Hq').
  rewrite (queue_points_Permutation _ _ _ Hperm).
  assert (Hold : forall i, i < length (objects s) ->
                 (objects s ++ [m]) !!! i = objects s !!! i).
  { intros i Hi. by rewrite lookup_total_app_l. }
  assert (Hin : forall i, i ∈ queue s -> i < length (objects s)).
  { by apply Forall_forall. }
  assert (H1 : c1 ∈ queue s) by (rewrite Hperm; by left).
  assert (H2 : c2 ∈ queue s) by (rewrite Hperm; right; by left).
  unfold queue_points. rewrite !fmap_cons. simpl.
  rewrite lookup_total_app_r by lia. rewrite Nat.sub_diag. simpl.
  assert (Heq : (fun unit => points ((objects s ++ [m]) !!! unit)) <$> q
                = (fun unit => points (objects s !!! unit)) <$> q).
  { apply list_fmap_ext. intros j i Hi. rewrite Hold; [done|].
    apply Hin. rewrite Hperm. do 2 right. by eapply list_elem_of_lookup_2. }
  rewrite Heq, Hp. by rewrite <- app_assoc.
Qed.

End Invariant.

(** ** The constructor *)

Lemma getitem_Z_seq n (z : Z) :
  n <> 0 -> (z = -1 \/ 0 <= z < Z.of_nat n)%Z -> is_Ok (getitem_Z (seq 0 n) z).
Proof.
  intros Hn Hz. unfold getitem_Z, getitem. rewrite length_seq.
  destruct (Z.ltb_spec z 0) as [Hneg|Hpos].
  - destruct Hz as [-> | Hz]; [|lia].
    destruct (Z.ltb_spec (-1 + Z.of_nat n) 0); [lia|].
    rewrite lookup_seq_lt by lia. by eexists.
  - rewrite lookup_seq_lt by lia. by eexists.
Qed.

Lemma queue_points_seq (h : heap) :
  queue_points h (seq 0 (length h)) = concat (points <$> h).
Proof.
  unfold queue_points. f_equal. apply list_eq. intros i.
  rewrite !list_lookup_fmap.
  destruct (decide (i < length h)) as [Hi|Hi].
  - rewrite lookup_seq_lt by done. simpl.
    destruct (lookup_lt_is_Some_2 h i Hi) as [x Hx].
    by rewrite Hx, (list_lookup_total_correct _ _ _ Hx).
  - rewrite lookup_seq_ge by lia. by rewrite lookup_ge_None_2 by lia.
Qed.

Lemma concat_singletons (data : list point) :
  concat (points <$> ((fun p => cure_cluster_new (Some p)) <$> data)) = data.
Proof. induction data as [|p data IH]; [done|]. rewrite !fmap_cons. simpl. by f_equal. Qed.

Section Constructor.

Variable euclidean_distance : point -> point -> Q.
Context {T : Type} `{SpatialIndex T}.

Lemma nearest_other_index h q i :
  ((nearest_other euclidean_distance h q i).2 = -1 \/
   0 <= (nearest_other euclidean_distance h q i).2 < Z.of_nat (length q))%Z.
Proof.
  unfold nearest_other.
  assert (Hgen : forall l best,
    Forall (fun k => k < length q) l ->
    (best.2 = -1 \/ 0 <= best.2 < Z.of_nat (length q))%Z ->
    ((foldl (fun (best : dist * Z) (k : nat) =>
        if negb (Nat.eqb i k) then
          let d := cluster_distance euclidean_distance (h !!! (q !!! i)) (h !!! (q !!! k)) in
          if dist_ltb d best.1 then (d, Z.of_nat k) else best
        else best) best l).2 = -1 \/
     0 <= (foldl (fun (best : dist * Z) (k : nat) =>
        if negb (Nat.eqb i k) then
          let d := cluster_distance euclidean_distance (h !!! (q !!! i)) (h !!! (q !!! k)) in
          if dist_ltb d best.1 then (d, Z.of_nat k) else best
        else best) best l).2 < Z.of_nat (length q))%Z).
  { induction l as [|k l IH]; intros best Hl Hbest; [done|].
    inversion Hl as [|? ? Hk Hl']; subst. rewrite foldl_step. apply IH; [done|].
    destruct (negb (Nat.eqb i k)); [|done]. cbn zeta.
    destruct (dist_ltb _ _); [|done]. right. simpl. lia. }
  apply Hgen; [|by left].
  apply Forall_forall. intros k Hk. apply elem_of_seq in Hk. lia.
Qed.

(** The constructor never fails: it builds one singleton cluster per
    point, whatever the configuration is. *)
Lemma create_queue_Ok (data : list point) :
  exists h q, create_queue euclidean_distance data = Ok (h, q) /\
    body <$> h = body <$> ((fun p => cure_cluster_new (Some p)) <$> data) /\
    q ≡ₚ seq 0 (length data).
Proof.
  unfold create_queue.
  set (h0 := (fun p => cure_cluster_new (Some p)) <$> data).
  set (q := seq 0 (length data)).
  set (step := fun (acc : result heap) (i : nat) => _).
  assert (Hgen : forall l (h : heap),
    Forall (fun i => i < length data) l -> body <$> h = body <$> h0 ->
    exists h', foldl step (Ok h) l = Ok h' /\ body <$> h' = body <$> h0).
  { induction l as [|i l IH]; intros h Hl Hh; [by exists h|].
    inversion Hl as [|? ? Hi Hl']; subst. rewrite foldl_step.
    assert (Hstep : exists h1, step (Ok h) i = Ok h1 /\ body <$> h1 = body <$> h0).
    { unfold step. rewrite bind_Ok_l.
      destruct (nearest_other euclidean_distance h q i) as [md idx] eqn:En.
      destruct (getitem_Z_seq (length data) idx) as [c Hc]; [lia| |].
      { pose proof (nearest_other_index h q i) as Hidx. rewrite En in Hidx.
        unfold q in Hidx. rewrite length_seq in Hidx. exact Hidx. }
      fold q in Hc. rewrite Hc, bind_Ok_l. eexists. split; [done|].
      rewrite !update_body by by intros ?. done. }
    destruct Hstep as (h1 & -> & Hh1). by apply IH. }
  destruct (Hgen (seq 0 (length q)) h0) as (h & Hfold & Hh); [|done|].
  { apply Forall_forall. intros i Hi. apply elem_of_seq in Hi.
    unfold q in Hi. rewrite length_seq in Hi. lia. }
  rewrite Hfold, bind_Ok_l. exists h, (sort_by_distance h q).
  split; [done|]. split; [done|]. apply sort_by_distance_Permutation.
Qed.

Lemma cure_init_Ok (data : list point) (k R : Z) (c : Q) :
  exists s, cure_init euclidean_distance data k R c = Ok s /\
    pointer_data s = data /\ number_cluster s = k /\
    number_represent_points s = R /\ compression s = c /\ clusters s = None /\
    body <$> objects s = body <$> ((fun p => cure_cluster_new (Some p)) <$> data) /\
    queue s ≡ₚ seq 0 (length data).
Proof.
  destruct (create_queue_Ok data) as (h & q & Hcq & Hh & Hq).
  unfold cure_init. rewrite Hcq, bind_Ok_l. eexists. split; [done|]. by simpl.
Qed.

Lemma cure_init_state_ok d (data : list point) (k R : Z) (c : Q) s :
  Forall (fun p => length p = d) data ->
  cure_init euclidean_distance data k R c = Ok s ->
  state_ok d s /\ queue_points (objects s) (queue s) ≡ₚ data.
Proof.
  intros Hd Hs.
  destruct (cure_init_Ok data k R c) as (s' & Hs' & _ & _ & _ & _ & _ & Hb & Hq).
  assert (s' = s) as -> by congruence.
  assert (Hlen : length (objects s) = length data).
  { by rewrite (body_length _ _ Hb), length_fmap. }
  split; [split|].
  - apply (Forall_cluster_ok_body d _ _ (eq_sym Hb)).
    apply Forall_fmap. eapply Forall_impl; [exact Hd|].
    intros p Hp. by apply cluster_ok_singleton.
  - rewrite Hq, Hlen. apply Forall_forall. intros i Hi.
    apply elem_of_seq in Hi. lia.
  - rewrite (queue_points_Permutation _ _ _ Hq), (queue_points_body _ _ _ Hb).
    replace (length data)
      with (length ((fun p => cure_cluster_new (Some p)) <$> data))
      by apply length_fmap.
    by rewrite queue_points_seq, concat_singletons.
Qed.

End Constructor.

(** ** Runs of process *)

Section Runs.

Variable euclidean_distance : point -> point -> Q.
Context {T : Type} `{SpatialIndex T}.

Local Abbreviation merge_round := (merge_round euclidean_distance).
Local Abbreviation turns := (turns euclidean_distance).
Local Abbreviation runs := (runs euclidean_distance).
Local Abbreviation process := (process euclidean_distance).

Lemma merge_round_length s s' :
  merge_round s = Ok s' -> S (length (queue s')) = length (queue s).
Proof.
  intros Hr. apply merge_round_inv in Hr
    as (c1 & c2 & q & m & _ & _ & Hperm & _ & _ & Hq' & _).
  by rewrite Hperm, Hq'.
Qed.

Lemma turns_invariant d s n s' :
  state_ok d s -> turns s n s' ->
  state_ok d s' /\
  queue_points (objects s') (queue s') ≡ₚ queue_points (objects s) (queue s) /\
  length (queue s') + n = length (queue s) /\
  number_cluster s' = number_cluster s.
Proof.
  intros Hok Ht. induction Ht as [s|s s1 n s' Htest Hr Ht IH]; [by rewrite Nat.add_0_r|].
  destruct (IH (merge_round_state_ok _ d _ _ Hok Hr)) as (Hok' & Hp & Hl & Hk).
  split; [done|]. split.
  { by rewrite Hp, (merge_round_points _ d s s1 Hok Hr). }
  split.
  { pose proof (merge_round_length _ _ Hr). lia. }
  apply merge_round_inv in Hr as (? & ? & ? & ? & _ & _ & _ & _ & _ & _ & Hk' & _).
  congruence.
Qed.

Lemma runs_turns s n s'' :
  runs s n s'' <->
  exists s', turns s n s' /\ loop_test s' = false /\ s'' = change_representation s'.
Proof.
  split.
  - induction 1 as [s Htest|s s1 n s' Htest Hr _ (s2 & Ht & Hstop & ->)].
    + exists s. by repeat split; [constructor|..].
    + exists s2. repeat split; [|done]. by econstructor.
  - intros (s' & Ht & Hstop & ->).
    induction Ht as [s|s s1 n s' Htest Hr Ht IH]; [by constructor|].
    econstructor; [done..|]. by apply IH.
Qed.

Lemma process_runs fuel : forall s s',
  process fuel s = Some (Ok s') -> exists n, runs s n s'.
Proof.
  induction fuel as [|fuel IH]; intros s s'; simpl.
  - destruct (loop_test s) eqn:Ht; [done|]. intros [= <-]. exists 0. by constructor.
  - destruct (loop_test s) eqn:Ht.
    + destruct (merge_round s) as [s1|e] eqn:Hr; [|done].
      intros Hp. destruct (IH _ _ Hp) as [n Hn]. exists (S n). by econstructor.
    + intros [= <-]. exists 0. by constructor.
Qed.

Lemma runs_process s n s' : runs s n s' -> process n s = Some (Ok s').
Proof.
  induction 1 as [s Htest|s s1 n s' Htest Hr _ IH]; simpl.
  - by rewrite Htest.
  - by rewrite Htest, Hr.
Qed.

End Runs.

(** ** Runs on concrete data *)

Lemma euclidean_distance_1d_nonneg p q : (0 <= euclidean_distance_1d p q)%Q.
Proof.
  unfold euclidean_distance_1d.
  destruct p as [|x [|? ?]]; try apply Qle_refl.
  destruct q as [|y [|? ?]]; try apply Qle_refl.
  apply Qabs_nonneg.
Qed.

Lemma run_1d_runs fuel data k R c s' :
  run_1d fuel data k R c = Some (Ok s') ->
  exists s0 n,
    cure_init euclidean_distance_1d (H := list_index_ops euclidean_distance_1d)
      data k R c = Ok s0 /\
    runs euclidean_distance_1d (H := list_index_ops euclidean_distance_1d) s0 n s'.
Proof.
  unfold run_1d. intros Hrun.
  destruct (cure_init euclidean_distance_1d data k R c) as [s0|e]; [|done].
  destruct (process_runs _ _ _ _ Hrun) as [n Hn]. by exists s0, n.
Qed.

Lemma length_concat_sum {A} (l : list (list A)) :
  length (concat l) = sum_list_with length l.
Proof.
  induction l as [|x l IH]; simpl; [done|]. by rewrite length_app, IH.
Qed.

(** ** The properties of the specification *)

(** C2. No point is lost or copied: when [process()] returns, the member
    points of the clusters that [get_clusters()] gives are, as a multiset,
    the input points, so the cluster sizes add up to the number of input
    points; and every turn of the loop keeps the multiset of the member
    points held by the clusters of the queue. *)
Theorem points_conserved (euclidean_distance : point -> point -> Q)
    {T : Type} `{SpatialIndex T} (d : nat) (data : list point) (k R : Z) (c : Q)
    (s0 s' : cure (T := T)) (n : nat) :
  Forall (fun p => length p = d) data ->
  cure_init euclidean_distance data k R c = Ok s0 ->
  runs euclidean_distance s0 n s' ->
  (exists cl, get_clusters s' = Some cl /\ concat cl ≡ₚ data /\
              sum_list_with length cl = length data) /\
  (forall i s1 s2, turns euclidean_distance s0 i s1 ->
     merge_round euclidean_distance s1 = Ok s2 ->
     queue_points (objects s2) (queue s2) ≡ₚ queue_points (objects s1) (queue s1)).
Proof.
  intros Hd Hinit Hruns.
  destruct (cure_init_state_ok euclidean_distance d data k R c s0 Hd Hinit)
    as [Hok Hpts].
  split.
  - apply runs_turns in Hruns as (s1 & Ht & _ & ->).
    destruct (turns_invariant euclidean_distance d s0 n s1 Hok Ht) as (_ & Hp & _).
    eexists. split; [done|].
    assert (Hc : concat ((fun unit => points (objects s1 !!! unit)) <$> queue s1) ≡ₚ data).
    { change (queue_points (objects s1) (queue s1) ≡ₚ data). by rewrite Hp. }
    split; [done|]. by rewrite <- length_concat_sum, Hc.
  - intros i s1 s2 Ht Hr.
    destruct (turns_invariant euclidean_distance d s0 i s1 Hok Ht) as (Hok1 & _).
    by apply (merge_round_points euclidean_distance d).
Qed.

Lemma points_conserved_witness :
  exists s', run_1d 10 (line [7; 10; 3; 7; 5; 8]%Q) 2 5 (1 # 2) = Some (Ok s') /\
    exists cl, get_clusters s' = Some cl /\
      concat cl ≡ₚ line [7; 10; 3; 7; 5; 8]%Q /\
      sum_list_with length cl = 6.
Proof.
  destruct (run_1d 10 (line [7; 10; 3; 7; 5; 8]%Q) 2 5 (1 # 2)) as [[s'|e]|] eqn:E;
    [|vm_compute in E; discriminate..].
  exists s'. split; [reflexivity|].
  destruct (run_1d_runs _ _ _ _ _ _ E) as (s0 & n & Hinit & Hruns).
  refine (proj1 (points_conserved euclidean_distance_1d 1
                   (line [7; 10; 3; 7; 5; 8]%Q) 2 5 (1 # 2) s0 s' n _ Hinit Hruns)).
  repeat constructor.
Defined.

(** C9. In exact arithmetic the mean of every cluster is the centroid of its
    member points, at every step: after any number of turns this holds of
    every cluster created so far, the singletons and the merged ones; and the
    size-weighted average of the means of two clusters, which the merge
    stores, is the centroid of their concatenated member points. *)
Theorem mean_is_centroid (euclidean_distance : point -> point -> Q)
    {T : Type} `{SpatialIndex T} (d : nat) (data : list point) (k R : Z) (c : Q)
    (s0 s : cure (T := T)) (n : nat) :
  Forall (fun p => length p = d) data ->
  cure_init euclidean_distance data k R c = Ok s0 ->
  turns euclidean_distance s0 n s ->
  Forall (mean_exact d) (objects s) /\
  (forall x1 x2 m, cluster_ok d x1 -> cluster_ok d x2 ->
     merge_clusters euclidean_distance R c x1 x2 = Ok m ->
     exists m1 m2, mean x1 = Some m1 /\ mean x2 = Some m2 /\
       mean m = Some (weighted_mean (length (points x1)) (length (points x2)) m1 m2) /\
       point_eq (weighted_mean (length (points x1)) (length (points x2)) m1 m2)
                (centroid d (points x1 ++ points x2))).
Proof.
  intros Hd Hinit Ht.
  destruct (cure_init_state_ok euclidean_distance d data k R c s0 Hd Hinit)
    as [Hok _].
  destruct (turns_invariant euclidean_distance d s0 n s Hok Ht) as ([Hobj _] & _).
  split.
  - eapply Forall_impl; [exact Hobj|]. by intros x [_ Hx].
  - intros x1 x2 m [W1 (m1 & Hm1 & E1)] [W2 (m2 & Hm2 & E2)] Hm.
    destruct W1 as (Hne1 & Hd1 & m1' & Hm1' & Hl1).
    destruct W2 as (Hne2 & Hd2 & m2' & Hm2' & Hl2).
    assert (m1' = m1) as -> by congruence. assert (m2' = m2) as -> by congruence.
    exists m1, m2. do 2 (split; [done|]).
    apply merge_clusters_body in Hm as (Hp & mean_ & Hmean & Hmm).
    rewrite (merged_mean_Ok _ _ m1 m2) in Hmean; [|done|done|lia|];
      [|destruct (points x1); simpl; [done|lia]].
    injection Hmean as <-. split; [done|]. by apply weighted_mean_centroid.
Qed.

Lemma mean_is_centroid_witness :
  exists s', run_1d 10 (line [7; 10; 3; 7; 5; 8]%Q) 2 5 (1 # 2) = Some (Ok s') /\
    Forall (mean_exact 1) (objects s').
Proof.
  destruct (run_1d 10 (line [7; 10; 3; 7; 5; 8]%Q) 2 5 (1 # 2)) as [[s'|e]|] eqn:E;
    [|vm_compute in E; discriminate..].
  exists s'. split; [reflexivity|].
  destruct (run_1d_runs _ _ _ _ _ _ E) as (s0 & n & Hinit & Hruns).
  apply runs_turns in Hruns as (s1 & Ht & _ & ->).
  refine (proj1 (mean_is_centroid euclidean_distance_1d 1
                   (line [7; 10; 3; 7; 5; 8]%Q) 2 5 (1 # 2) s0 s1 n _ Hinit Ht)).
  repeat constructor.
Defined.




(** X25.  What lines 250-268 select.  The candidates are member points of
    the merged cluster; the first is the point farthest from the merged
    mean; when [R >= 2] the second is the point farthest from the first
    selected candidate, and it is kept only if it differs from the first; no
    further candidate is selected, whatever [R] is.  In both scans the last
    point in iteration order wins a tie. *)
Theorem representatives_farthest_from_first (euclidean_distance : point -> point -> Q)
    (R : Z) (pts : list point) (mean_ : point) :
  (forall p q, (0 <= euclidean_distance p q)%Q) ->
  pts <> [] ->
  exists first second,
    is_last_farthest (fun p => euclidean_distance p mean_) pts first /\
    is_last_farthest (fun p => euclidean_distance p first) pts second /\
    select_representatives euclidean_distance R pts mean_
    = Ok (selected R first second).
Proof.
  intros Hnonneg Hpts.
  destruct (farthest_scan_nonneg (fun p => euclidean_distance p mean_) pts)
    as (first & Hfirst & Hf); [done|done|].
  destruct (farthest_scan_nonneg (fun p => euclidean_distance p first) pts)
    as (second & Hsecond & Hs); [done|done|].
  exists first, second. do 2 (split; [done|]).
  by apply select_representatives_selected.
Qed.

Lemma representatives_farthest_from_first_witness :
  exists first second,
    is_last_farthest (fun p => euclidean_distance_1d p [2%Q]) (line [0; 1; 5]%Q) first /\
    is_last_farthest (fun p => euclidean_distance_1d p first) (line [0; 1; 5]%Q) second /\
    select_representatives euclidean_distance_1d 3 (line [0; 1; 5]%Q) [2%Q]
    = Ok (selected 3 first second).
Proof.
  apply (representatives_farthest_from_first euclidean_distance_1d 3
           (line [0; 1; 5]%Q) [2%Q] euclidean_distance_1d_nonneg).
  discriminate.
Defined.

(** C5, on the code: on the member points 0, 1, 5 (mean 2) with [R = 3]
    the loop of lines 250-268 runs three times and selects 5 and 0 only: its
    third scan measures the distance to [temporary[0]] again, finds 0 again
    and appends nothing.  The selection as specified goes on from the most
    recent candidate 0 to the unselected point 1 and gives three
    candidates. *)
Lemma selection_not_from_most_recent :
  select_representatives euclidean_distance_1d 3 (line [0; 1; 5]%Q) [2%Q]
  = Ok [Some [5%Q]; Some [0%Q]] /\
  select_as_specified euclidean_distance_1d 3 (line [0; 1; 5]%Q) [2%Q]
  = [[5%Q]; [0%Q]; [1%Q]].
Proof. split; vm_compute; reflexivity. Qed.

(** C6.  Whatever the cap [R] is, the cluster that the merge of two clusters
    returns has at most two representative points. *)
Theorem at_most_two_representatives (euclidean_distance : point -> point -> Q)
    (d : nat) (R : Z) (c : Q) (cluster1 cluster2 : cure_cluster) :
  (forall p q, (0 <= euclidean_distance p q)%Q) ->
  well_formed d cluster1 -> well_formed d cluster2 ->
  exists m, merge_clusters euclidean_distance R c cluster1 cluster2 = Ok m /\
            length (rep m) <= 2.
Proof.
  intros Hnonneg W1 W2.
  destruct (merge_clusters_well_formed euclidean_distance Hnonneg d R c
              cluster1 cluster2 W1 W2)
    as (m1 & m2 & first & second & l & _ & _ & _ & _ & Hl & Hm).
  eexists. split; [exact Hm|]. simpl. rewrite length_fmap.
  destruct (selected_all_Some R first second) as (l' & Hl' & Hlen & _).
  assert (l' = l) as <-; [|done].
  rewrite Hl in Hl'. by apply (inj (fmap Some)) in Hl'.
Qed.

Lemma at_most_two_representatives_witness :
  exists m,
    merge_clusters euclidean_distance_1d 5 (1 # 2)
      {| points := line [0; 1]%Q; mean := Some [1 # 2]; rep := line [1 # 4; 3 # 4]%Q;
         closest := None; distance := Inf; ditance := None |}
      (cure_cluster_new (Some [5%Q])) = Ok m /\
    length (rep m) <= 2.
Proof.
  apply (at_most_two_representatives euclidean_distance_1d 1 5 (1 # 2) _ _
           euclidean_distance_1d_nonneg).
  - split; [discriminate|]. split; [by repeat constructor|]. by exists [1 # 2].
  - split; [discriminate|]. split; [by repeat constructor|]. by exists [5%Q].
Defined.

(** C3, on the code: after the first turn on the points (-10,0), (10,0),
    (0,30), (0,61) with [k = 3], the cluster of (0,30), whose neighbour (0,61)
    was not merged, points to the merged cluster, which is strictly nearer
    than its cached distance; the new distance went to the attribute
    [ditance] and the cached [distance] is the old one. *)
Theorem misspelled_distance_not_updated :
  exists s0 s1 : cure (T := list_index),
    cure_init euclidean_distance_sqrt (H := list_index_ops euclidean_distance_sqrt)
      [[-10; 0]; [10; 0]; [0; 30]; [0; 61]]%Q 3 5 (1 # 2) = Ok s0 /\
    merge_round euclidean_distance_sqrt (H := list_index_ops euclidean_distance_sqrt) s0
      = Ok s1 /\
    queue s0 = [0; 1; 2; 3] /\ closest (objects s0 !!! 0) = Some 1 /\
    closest (objects s0 !!! 2) = Some 3 /\
    points (objects s1 !!! 4) = [[-10; 0]; [10; 0]]%Q /\
    let d := cluster_distance euclidean_distance_sqrt (objects s1 !!! 4) (objects s1 !!! 2) in
    dist_ltb d (distance (objects s0 !!! 2)) = true /\
    closest (objects s1 !!! 2) = Some 4 /\
    distance (objects s1 !!! 2) = distance (objects s0 !!! 2) /\
    ditance (objects s1 !!! 2) = Some d.
Proof.
  eexists. eexists. split; [vm_compute; reflexivity|].
  split; [vm_compute; reflexivity|].
  vm_compute. repeat split; reflexivity.
Qed.

(** C4, refuted as stated: after the first turn on the points -1.3, 0, 1.2, 2
    with [k = 3], the cluster of 0 had the merged-away cluster of 1.2 as its
    neighbour, at the cached distance 1.2, which is less than its distance
    1.4 to the merged cluster; the query with the cached distance as radius
    surfaces no other cluster, and yet the neighbour assigned is not the
    merged cluster but the cluster of -1.3, at distance 1.3. *)
Lemma radius_is_not_cached_distance :
  exists s0 s1 : cure (T := list_index),
    cure_init euclidean_distance_1d (H := list_index_ops euclidean_distance_1d)
      (line [-13 # 10; 0; 12 # 10; 2]%Q) 3 5 (1 # 2) = Ok s0 /\
    merge_round euclidean_distance_1d (H := list_index_ops euclidean_distance_1d) s0
      = Ok s1 /\
    queue s0 = [2; 3; 1; 0] /\ closest (objects s0 !!! 2) = Some 3 /\
    closest (objects s0 !!! 1) = Some 2 /\
    distance (objects s0 !!! 1) = Fin (12 # 10) /\
    let d := cluster_distance euclidean_distance_1d (objects s1 !!! 4) (objects s1 !!! 1) in
    dist_ltb (distance (objects s0 !!! 1)) d = true /\
    closest_cluster (H := list_index_ops euclidean_distance_1d) (tree s1) (objects s0) 1
      (distance (objects s0 !!! 1)) = (None, Inf) /\
    closest (objects s1 !!! 1) = Some 0 /\
    distance (objects s1 !!! 1) = Fin (13 # 10) /\
    closest (objects s1 !!! 1) <> Some 4.
Proof.
  eexists. eexists. split; [vm_compute; reflexivity|].
  split; [vm_compute; reflexivity|].
  vm_compute. repeat split; try reflexivity. discriminate.
Qed.

(** C7, on the code: on the points 7, 10, 3, 7, 5, 8 with [k = 3] the third
    turn starts with a queue that is not in ascending order of the cached
    distances. *)
Theorem queue_not_sorted :
  exists s0 s2 : cure (T := list_index),
    cure_init euclidean_distance_1d (H := list_index_ops euclidean_distance_1d)
      (line [7; 10; 3; 7; 5; 8]%Q) 3 5 (1 # 2) = Ok s0 /\
    turns euclidean_distance_1d (H := list_index_ops euclidean_distance_1d) s0 2 s2 /\
    loop_test s2 = true /\
    ascending (queue_distances s2) = false.
Proof.
  eexists. eexists. split; [vm_compute; reflexivity|].
  split.
  { eapply turns_S; [vm_compute; reflexivity|vm_compute; reflexivity|].
    eapply turns_S; [vm_compute; reflexivity|vm_compute; reflexivity|].
    apply turns_0. }
  split; vm_compute; reflexivity.
Qed.

(** ** The repair of the neighbour links (lines 120-152) *)

Lemma lookup_total_closest_Some (h : heap) i c :
  closest (h !!! i) = Some c -> i < length h.
Proof.
  intros Hc. destruct (decide (i < length h)) as [|Hge]; [done|].
  rewrite list_lookup_total_alt, lookup_ge_None_2 in Hc by lia. done.
Qed.

Section Repair.

Variable euclidean_distance : point -> point -> Q.
Context {T : Type} `{SpatialIndex T}.

Local Abbreviation repair_item := (repair_item euclidean_distance).
Local Abbreviation repair := (repair euclidean_distance).
Local Abbreviation cluster_distance := (cluster_distance euclidean_distance).

Lemma cluster_distance_rep x y x' y' :
  rep x = rep x' -> rep y = rep y' -> cluster_distance x y = cluster_distance x' y'.
Proof. intros Hx Hy. unfold cluster_distance. by rewrite Hx, Hy. Qed.

Lemma closest_cluster_rep tr (h h' : heap) item radius :
  rep (h !!! item) = rep (h' !!! item) ->
  closest_cluster tr h item radius = closest_cluster tr h' item radius.
Proof. intros Hr. unfold closest_cluster. by rewrite Hr. Qed.

Lemma body_rep (h h' : heap) i :
  body <$> h = body <$> h' -> rep (h !!! i) = rep (h' !!! i).
Proof.
  intros Hb. pose proof (body_lookup h h' i Hb) as Hi. unfold body in Hi.
  by injection Hi.
Qed.

(** The body of the loop for another cluster leaves [item] alone. *)
Lemma repair_item_other tr c1 c2 m h requests item' item :
  item' <> item -> m <> item ->
  (repair_item tr c1 c2 m (h, requests) item').1 !!! item = h !!! item.
Proof.
  intros Hne Hm. unfold repair_item.
  set (d := cluster_distance (h !!! m) (h !!! item')).
  set (h1 := if dist_ltb d (distance (h !!! m)) then _ else h).
  assert (H1 : h1 !!! item = h !!! item).
  { unfold h1. destruct (dist_ltb d _); [|done]. by rewrite !update_lookup_ne. }
  destruct (match closest (h1 !!! item') with Some c => _ | None => false end).
  - destruct (dist_ltb (distance (h1 !!! item')) d); simpl.
    + destruct (closest_cluster tr h1 item' d) as [nc nd].
      destruct (closest _); simpl; by rewrite !update_lookup_ne.
    + by rewrite !update_lookup_ne.
  - destruct (dist_ltb d (distance (h1 !!! item'))); simpl; [|done].
    by rewrite !update_lookup_ne.
Qed.

Lemma repair_items_other tr c1 c2 m q item : forall h requests,
  item ∉ q -> m <> item ->
  (foldl (repair_item tr c1 c2 m) (h, requests) q).1 !!! item = h !!! item.
Proof.
  induction q as [|item' q IH]; intros h requests Hnin Hm; [done|].
  rewrite foldl_step.
  destruct (repair_item tr c1 c2 m (h, requests) item') as [h' requests'] eqn:E.
  rewrite IH; [|by intros ?; apply Hnin; right|done].
  replace h' with (repair_item tr c1 c2 m (h, requests) item').1 by by rewrite E.
  apply repair_item_other; [|done]. intros ->. apply Hnin. by left.
Qed.

(** The body of the loop for [item] itself, when its neighbour was merged
    away and its cached distance is less than the distance to the merged
    cluster. *)
Lemma repair_item_self tr c1 c2 m h requests item :
  m <> item ->
  closest (h !!! item) = Some c1 \/ closest (h !!! item) = Some c2 ->
  dist_ltb (distance (h !!! item)) (cluster_distance (h !!! m) (h !!! item)) = true ->
  (repair_item tr c1 c2 m (h, requests) item).2 = requests ++ [item] /\
  match closest_cluster tr h item (cluster_distance (h !!! m) (h !!! item)) with
  | (Some c, nd) =>
      closest ((repair_item tr c1 c2 m (h, requests) item).1 !!! item) = Some c /\
      distance ((repair_item tr c1 c2 m (h, requests) item).1 !!! item) = nd
  | (None, _) =>
      closest ((repair_item tr c1 c2 m (h, requests) item).1 !!! item) = Some m /\
      distance ((repair_item tr c1 c2 m (h, requests) item).1 !!! item)
      = cluster_distance (h !!! m) (h !!! item)
  end.
Proof.
  intros Hm Hc Hlt.
  assert (Hi : item < length h).
  { destruct Hc as [Hc|Hc]; by eapply lookup_total_closest_Some. }
  unfold repair_item.
  set (d := cluster_distance (h !!! m) (h !!! item)) in *.
  set (h1 := if dist_ltb d (distance (h !!! m)) then _ else h).
  assert (H1 : h1 !!! item = h !!! item).
  { unfold h1. destruct (dist_ltb d _); [|done]. by rewrite !update_lookup_ne. }
  assert (Hl1 : item < length h1).
  { unfold h1. destruct (dist_ltb d _); [|done]. by rewrite !update_length. }
  rewrite (closest_cluster_rep tr h h1 item d) by by rewrite H1.
  rewrite H1, Hlt.
  assert (Hrem : (match closest (h !!! item) with
                  | Some c => Nat.eqb c c1 || Nat.eqb c c2
                  | None => false
                  end) = true).
  { destruct Hc as [-> | ->]; rewrite Nat.eqb_refl; [done|apply orb_true_r]. }
  rewrite Hrem.
  destruct (closest_cluster tr h1 item d) as [[c|] nd]; simpl.
  - rewrite !update_lookup_eq by by rewrite ?update_length. simpl.
    split; [done|]. rewrite !update_lookup_eq by by rewrite ?update_length. done.
  - rewrite !update_lookup_eq by by rewrite ?update_length. simpl.
    split; [done|]. rewrite !update_lookup_eq by by rewrite ?update_length. done.
Qed.

End Repair.

(** C4, amended: in a turn of the loop, a cluster [item] of the queue whose
    neighbour was one of the two merged clusters and whose cached distance is
    strictly less than its distance [d] to the merged cluster is asked to be
    relocated, and its neighbour is re-derived by the query of the spatial
    index at its own representative points with [d], the distance to the
    merged cluster, as radius: the answer of the query becomes its neighbour
    and cached distance, and when the query gives no cluster other than
    [item], the merged cluster becomes the neighbour, at distance [d]. *)
Theorem repair_queries_within_distance_to_merged
    (euclidean_distance : point -> point -> Q) {T : Type} `{SpatialIndex T}
    (tr : T) (cluster1 cluster2 merged : ident) (h : heap) (q : list ident)
    (item : ident) :
  NoDup q -> item ∈ q -> merged ∉ q ->
  closest (h !!! item) = Some cluster1 \/ closest (h !!! item) = Some cluster2 ->
  dist_ltb (distance (h !!! item))
    (cluster_distance euclidean_distance (h !!! merged) (h !!! item)) = true ->
  item ∈ (repair euclidean_distance tr cluster1 cluster2 merged h q).2 /\
  match closest_cluster tr h item
          (cluster_distance euclidean_distance (h !!! merged) (h !!! item)) with
  | (Some nearest, nearest_distance) =>
      closest ((repair euclidean_distance tr cluster1 cluster2 merged h q).1 !!! item)
        = Some nearest /\
      distance ((repair euclidean_distance tr cluster1 cluster2 merged h q).1 !!! item)
        = nearest_distance
  | (None, _) =>
      closest ((repair euclidean_distance tr cluster1 cluster2 merged h q).1 !!! item)
        = Some merged /\
      distance ((repair euclidean_distance tr cluster1 cluster2 merged h q).1 !!! item)
        = cluster_distance euclidean_distance (h !!! merged) (h !!! item)
  end.
Proof.
  intros Hnd Hin Hm Hc Hlt.
  assert (Hne : merged <> item) by (intros ->; done).
  unfold repair. destruct q as [|first q0]; [by apply elem_of_nil in Hin|].
  match goal with |- context [foldl _ (?x, [])] => set (h0 := x) end.
  assert (Hb0 : body <$> h0 = body <$> h).
  { unfold h0. rewrite !update_body; [done| |]; by intros ?. }
  assert (H0 : h0 !!! item = h !!! item).
  { unfold h0. by rewrite !update_lookup_ne. }
  clearbody h0. revert Hnd Hin Hm. generalize (first :: q0). clear first q0.
  intros q Hnd Hin Hm.
  apply list_elem_of_split in Hin as (l1 & l2 & ->).
  apply NoDup_app in Hnd as (_ & Hl1 & Hnd2).
  apply NoDup_cons in Hnd2 as [Hl2 _].
  assert (Hn1 : item ∉ l1) by (intros Hi; apply (Hl1 _ Hi); by left).
  rewrite foldl_app, foldl_step.
  destruct (foldl (repair_item euclidean_distance tr cluster1 cluster2 merged) (h0, []) l1)
    as [ha ra] eqn:Ea.
  assert (Ha : ha !!! item = h !!! item).
  { replace ha with
      (foldl (repair_item euclidean_distance tr cluster1 cluster2 merged) (h0, []) l1).1
      by by rewrite Ea.
    by rewrite repair_items_other. }
  assert (Hba : body <$> ha = body <$> h).
  { replace ha with
      (foldl (repair_item euclidean_distance tr cluster1 cluster2 merged) (h0, []) l1).1
      by by rewrite Ea.
    by rewrite repair_items_body. }
  assert (Hd : cluster_distance euclidean_distance (ha !!! merged) (ha !!! item)
               = cluster_distance euclidean_distance (h !!! merged) (h !!! item)).
  { apply cluster_distance_rep; by apply body_rep. }
  destruct (repair_item_self euclidean_distance tr cluster1 cluster2 merged ha ra item)
    as [Hr Hs]; [done|by rewrite Ha|by rewrite Hd, Ha|].
  rewrite Hd in Hs.
  rewrite (closest_cluster_rep tr ha h item) in Hs by by rewrite Ha.
  destruct (repair_item euclidean_distance tr cluster1 cluster2 merged (ha, ra) item)
    as [hb rb] eqn:Eb.
  simpl in Hr, Hs. split.
  - destruct (repair_items_requests euclidean_distance tr cluster1 cluster2 merged l2 hb rb)
      as (asked & -> & _).
    subst rb. apply elem_of_app. left. apply elem_of_app. right. by left.
  - rewrite (repair_items_other euclidean_distance tr cluster1 cluster2 merged l2 item hb rb)
      by done.
    done.
Qed.

Lemma repair_queries_within_distance_to_merged_witness :
  exists (h h' : heap) (tr : list_index) (requests : list ident),
    closest (h !!! 1) = Some 2 /\
    distance (h !!! 1) = Fin (12 # 10) /\
    cluster_distance euclidean_distance_1d (h !!! 4) (h !!! 1) = Fin (14 # 10) /\
    repair euclidean_distance_1d (H := list_index_ops euclidean_distance_1d)
      tr 2 3 4 h [1; 0] = (h', requests) /\
    1 ∈ requests /\
    closest (h' !!! 1) = Some 0 /\ distance (h' !!! 1) = Fin (13 # 10).
Proof.
  set (h := [mk_cluster [[-13 # 10]%Q] (Some [-13 # 10]%Q) [[-13 # 10]%Q] (Some 1) (Fin (13 # 10)) None;
             mk_cluster [[0]%Q] (Some [0]%Q) [[0]%Q] (Some 2) (Fin (12 # 10)) None;
             mk_cluster [[12 # 10]%Q] (Some [12 # 10]%Q) [[12 # 10]%Q] (Some 3) (Fin (8 # 10)) None;
             mk_cluster [[2]%Q] (Some [2]%Q) [[2]%Q] (Some 2) (Fin (8 # 10)) None;
             mk_cluster [[12 # 10]; [2]]%Q (Some [16 # 10]%Q) [[14 # 10]; [18 # 10]]%Q None Inf None]).
  set (tr := [([-13 # 10]%Q, 0); ([0]%Q, 1); ([14 # 10]%Q, 4); ([18 # 10]%Q, 4)] : list_index).
  pose proof (repair_queries_within_distance_to_merged euclidean_distance_1d
                (H := list_index_ops euclidean_distance_1d) tr 2 3 4 h [1; 0] 1) as Hw.
  exists h, (repair euclidean_distance_1d (H := list_index_ops euclidean_distance_1d)
               tr 2 3 4 h [1; 0]).1, tr,
    (repair euclidean_distance_1d (H := list_index_ops euclidean_distance_1d)
       tr 2 3 4 h [1; 0]).2.
  split; [reflexivity|]. split; [reflexivity|]. split; [reflexivity|].
  split; [apply surjective_pairing|].
  destruct Hw as [Hr Hs].
  - by apply (bool_decide_unpack _).
  - by apply (bool_decide_unpack _).
  - by apply (bool_decide_unpack _).
  - by left.
  - reflexivity.
  - split; [exact Hr|]. exact Hs.
Defined.

(** * Further properties of the code *)

(** ** The order on cached distances *)

Lemma dist_ltb_leb a b : dist_ltb a b = true -> dist_leb a b = true.
Proof.
  destruct a as [x|], b as [y|]; simpl; try done.
  intros Hlt. apply Qltb_lt in Hlt. apply Qle_bool_iff. by apply Qlt_le_weak.
Qed.

Lemma dist_ltb_false a b : dist_ltb a b = false -> dist_leb b a = true.
Proof.
  destruct a as [x|], b as [y|]; simpl; try done.
  unfold Qltb. by rewrite negb_false_iff.
Qed.

Lemma dist_leb_refl a : dist_leb a a = true.
Proof. destruct a as [x|]; simpl; [|done]. apply Qle_bool_iff. apply Qle_refl. Qed.

Lemma dist_leb_trans a b c :
  dist_leb a b = true -> dist_leb b c = true -> dist_leb a c = true.
Proof.
  destruct a as [x|], b as [y|], c as [z|]; simpl; try done.
  rewrite !Qle_bool_iff. apply Qle_trans.
Qed.

Lemma dist_leb_antisym a b :
  dist_leb a b = true -> dist_leb b a = true -> dist_eq a b.
Proof.
  destruct a as [x|], b as [y|]; simpl; try done.
  rewrite !Qle_bool_iff. apply Qle_antisym.
Qed.

Lemma dist_ltb_irrefl_leb a b : dist_ltb a b = true -> dist_leb b a = false.
Proof.
  destruct a as [x|], b as [y|]; simpl; try done.
  unfold Qltb. by rewrite negb_true_iff.
Qed.

(** ** __insert_cluster and __relocate_cluster *)

Lemma ascending_cons a l :
  ascending (a :: l) = true <->
  ascending l = true /\ match l with [] => True | b :: _ => dist_leb a b = true end.
Proof.
  destruct l as [|b l]; simpl; [tauto|].
  rewrite andb_true_iff. tauto.
Qed.

Lemma insert_cluster_head h cluster q :
  exists rest, insert_cluster h cluster q = cluster :: rest \/
    exists x q', q = x :: q' /\ insert_cluster h cluster q = x :: rest /\
                 dist_leb (distance (h !!! x)) (distance (h !!! cluster)) = true.
Proof.
  destruct q as [|x q]; simpl; [by eexists; left|].
  destruct (dist_ltb _ _) eqn:E; [by eexists; left|].
  eexists. right. exists x, q. split; [done|]. split; [done|].
  by apply dist_ltb_false.
Qed.

Lemma insert_cluster_ascending h cluster q :
  ascending (cached_distances h q) = true ->
  ascending (cached_distances h (insert_cluster h cluster q)) = true.
Proof.
  unfold cached_distances.
  induction q as [|x q IH]; [done|]. intros Hasc. simpl.
  destruct (dist_ltb _ _) eqn:E.
  - rewrite !fmap_cons. apply ascending_cons. split; [done|].
    by apply dist_ltb_leb.
  - rewrite fmap_cons in *. apply ascending_cons in Hasc as [Hq Hx].
    apply ascending_cons. split; [by apply IH|].
    destruct (insert_cluster_head h cluster q) as (rest & [-> | (y & q' & -> & -> & _)]).
    + rewrite fmap_cons. by apply dist_ltb_false.
    + rewrite fmap_cons in *. done.
Qed.

(** X1.  [__insert_cluster] keeps a sorted queue sorted: when the cached
    distances of the queue are in ascending order, they still are after the
    cluster has been inserted, and the queue has gained this one cluster and
    lost none. *)
Theorem insert_cluster_keeps_order (h : heap) (cluster : ident) (q : list ident) :
  ascending (cached_distances h q) = true ->
  ascending (cached_distances h (insert_cluster h cluster q)) = true /\
  insert_cluster h cluster q ≡ₚ cluster :: q.
Proof.
  intros Hasc. split; [by apply insert_cluster_ascending|].
  apply insert_cluster_Permutation.
Qed.

Lemma insert_cluster_keeps_order_witness :
  exists h : heap,
    cached_distances h [0; 1; 2] = [Fin 1; Fin 3; Fin 2] /\
    ascending (cached_distances h (insert_cluster h 2 [0; 1])) = true /\
    insert_cluster h 2 [0; 1] ≡ₚ [2; 0; 1].
Proof.
  exists [set_distance (Fin 1) (cure_cluster_new None);
          set_distance (Fin 3) (cure_cluster_new None);
          set_distance (Fin 2) (cure_cluster_new None)].
  split; [reflexivity|].
  exact (insert_cluster_keeps_order
           [set_distance (Fin 1) (cure_cluster_new None);
            set_distance (Fin 3) (cure_cluster_new None);
            set_distance (Fin 2) (cure_cluster_new None)] 2 [0; 1] eq_refl).
Defined.

(** X2.  Where [__insert_cluster] puts the cluster: directly before the first
    cluster of the queue whose cached distance is strictly greater than its
    own, and at the end when there is none; the clusters already in the
    queue keep their order. *)
Theorem insert_cluster_position (h : heap) (cluster : ident) (q : list ident) :
  exists before after,
    q = before ++ after /\
    insert_cluster h cluster q = before ++ cluster :: after /\
    Forall (fun x => dist_ltb (distance (h !!! cluster)) (distance (h !!! x)) = false)
      before /\
    match after with
    | [] => True
    | x :: _ => dist_ltb (distance (h !!! cluster)) (distance (h !!! x)) = true
    end.
Proof.
  induction q as [|x q (before & after & Hq & Hins & Hb & Ha)]; simpl.
  - by exists [], [].
  - destruct (dist_ltb _ _) eqn:E.
    + exists [], (x :: q). by rewrite E.
    + exists (x :: before), after. rewrite Hins. simpl.
      split; [by f_equal|]. split; [done|]. split; [by constructor|done].
Qed.

(** X3.  [__relocate_cluster] on a cluster of the queue returns a queue with
    the same clusters; on a cluster that is not in the queue it raises
    [ValueError] (from [list.remove]). *)
Theorem relocate_cluster_needs_member (h : heap) (cluster : ident) (q : list ident) :
  (cluster ∈ q -> exists q', relocate_cluster h cluster q = Ok q' /\ q' ≡ₚ q) /\
  (cluster ∉ q -> relocate_cluster h cluster q = Raise ValueError).
Proof.
  split.
  - intros Hin. destruct (list_remove_elem cluster q Hin) as [q0 Hq0].
    unfold relocate_cluster. rewrite Hq0, bind_Ok_l. eexists. split; [done|].
    rewrite insert_cluster_Permutation. symmetry. by apply list_remove_Permutation.
  - intros Hnin. unfold relocate_cluster.
    assert (Hr : list_remove cluster q = Raise ValueError); [|by rewrite Hr].
    induction q as [|y q IH]; simpl; [done|].
    destruct (Nat.eqb_spec y cluster) as [->|Hne]; [exfalso; apply Hnin; by left|].
    rewrite IH; [done|]. intros Hq. apply Hnin. by right.
Qed.

Lemma relocate_cluster_needs_member_witness :
  (exists q', relocate_cluster [cure_cluster_new None; cure_cluster_new None] 0 [1; 0]
              = Ok q' /\ q' ≡ₚ [1; 0]) /\
  relocate_cluster [cure_cluster_new None; cure_cluster_new None] 5 [1; 0]
  = Raise ValueError.
Proof.
  split.
  - apply (proj1 (relocate_cluster_needs_member
                    [cure_cluster_new None; cure_cluster_new None] 0 [1; 0])).
    by apply (bool_decide_unpack _).
  - apply (proj2 (relocate_cluster_needs_member
                    [cure_cluster_new None; cure_cluster_new None] 5 [1; 0])).
    by apply (bool_decide_unpack _).
Defined.

(** ** __cluster_distance *)

Section ClusterDistance.

Variable euclidean_distance : point -> point -> Q.

Local Abbreviation cluster_distance := (cluster_distance euclidean_distance).

Lemma cluster_distance_inner ri (l : list point) : forall acc,
  let r := foldl (fun distance rk =>
             let d := Fin (euclidean_distance ri rk) in
             if dist_ltb d distance then d else distance) acc l in
  dist_leb r acc = true /\
  (forall rk, rk ∈ l -> dist_leb r (Fin (euclidean_distance ri rk)) = true) /\
  (r = acc \/ exists rk, rk ∈ l /\ r = Fin (euclidean_distance ri rk)).
Proof.
  induction l as [|rk l IH]; intros acc; cbn zeta.
  - split; [apply dist_leb_refl|]. split; [|by left].
    intros rk Hrk. by apply elem_of_nil in Hrk.
  - rewrite foldl_step.
    set (acc' := if dist_ltb (Fin (euclidean_distance ri rk)) acc
                 then Fin (euclidean_distance ri rk) else acc).
    destruct (IH acc') as (Hle & Hall & Hex).
    assert (Hacc : dist_leb acc' acc = true /\
                   dist_leb acc' (Fin (euclidean_distance ri rk)) = true /\
                   (acc' = acc \/ acc' = Fin (euclidean_distance ri rk))).
    { unfold acc'. destruct (dist_ltb _ acc) eqn:E.
      - split; [by apply dist_ltb_leb|]. split; [apply dist_leb_refl|by right].
      - split; [apply dist_leb_refl|]. split; [by apply dist_ltb_false|by left]. }
    destruct Hacc as (Ha1 & Ha2 & Ha3).
    split; [by eapply dist_leb_trans|]. split.
    + intros rk' Hrk'. apply elem_of_cons in Hrk' as [->|Hrk'].
      * by eapply dist_leb_trans.
      * by apply Hall.
    + destruct Hex as [Hr|(rk' & Hrk' & Hr)].
      * destruct Ha3 as [Ha3|Ha3]; [left; exact (eq_trans Hr Ha3)|].
        right. exists rk. split; [by left|exact (eq_trans Hr Ha3)].
      * right. exists rk'. split; [by right|exact Hr].
Qed.

Lemma cluster_distance_outer (l1 l2 : list point) : forall acc,
  let r := foldl (fun distance ri =>
             foldl (fun distance rk =>
               let d := Fin (euclidean_distance ri rk) in
               if dist_ltb d distance then d else distance) distance l2) acc l1 in
  dist_leb r acc = true /\
  (forall ri rk, ri ∈ l1 -> rk ∈ l2 ->
     dist_leb r (Fin (euclidean_distance ri rk)) = true) /\
  (r = acc \/ exists ri rk, ri ∈ l1 /\ rk ∈ l2 /\ r = Fin (euclidean_distance ri rk)).
Proof.
  induction l1 as [|ri l1 IH]; intros acc; cbn zeta.
  - split; [apply dist_leb_refl|]. split; [|by left].
    intros ri rk Hri. by apply elem_of_nil in Hri.
  - rewrite foldl_step.
    destruct (cluster_distance_inner ri l2 acc) as (Ha1 & Ha2 & Ha3).
    cbn zeta in Ha1, Ha2, Ha3.
    set (acc' := foldl _ acc l2) in *.
    destruct (IH acc') as (Hle & Hall & Hex).
    split; [by eapply dist_leb_trans|]. split.
    + intros ri' rk Hri' Hrk. apply elem_of_cons in Hri' as [->|Hri'].
      * eapply dist_leb_trans; [exact Hle|]. by apply Ha2.
      * by apply Hall.
    + destruct Hex as [Hr|(ri' & rk' & Hri' & Hrk' & Hr)].
      * destruct Ha3 as [Ha3|(rk & Hrk & Ha3)]; [left; exact (eq_trans Hr Ha3)|].
        right. exists ri, rk. split; [by left|]. split; [done|exact (eq_trans Hr Ha3)].
      * right. exists ri', rk'. split; [by right|]. split; [done|exact Hr].
Qed.

Lemma cluster_distance_bound x y ri rk :
  ri ∈ rep x -> rk ∈ rep y ->
  dist_leb (cluster_distance x y) (Fin (euclidean_distance ri rk)) = true.
Proof.
  intros Hri Hrk.
  destruct (cluster_distance_outer (rep x) (rep y) Inf) as (_ & Hall & _).
  by apply Hall.
Qed.

Lemma cluster_distance_attained x y :
  rep x <> [] -> rep y <> [] ->
  exists ri rk, ri ∈ rep x /\ rk ∈ rep y /\
    cluster_distance x y = Fin (euclidean_distance ri rk).
Proof.
  intros Hx Hy.
  destruct (cluster_distance_outer (rep x) (rep y) Inf) as (_ & Hall & [Hr|Hr]); [|done].
  exfalso. destruct (rep x) as [|ri ?] eqn:Ex; [done|].
  destruct (rep y) as [|rk ?] eqn:Ey; [done|].
  specialize (Hall ri rk). cbn zeta in Hall, Hr. rewrite Hr in Hall.
  discriminate Hall; by left.
Qed.

Lemma cluster_distance_singletons p q :
  cluster_distance (cure_cluster_new (Some p)) (cure_cluster_new (Some q))
  = Fin (euclidean_distance p q).
Proof. done. Qed.

End ClusterDistance.

(** X4.  [__cluster_distance] is the least distance between a representative
    point of one cluster and a representative point of the other: when both
    clusters have representative points it is the distance of one such pair
    and no pair is nearer; when one of them has none it is [inf]. *)
Theorem cluster_distance_is_minimum (euclidean_distance : point -> point -> Q)
    (cluster1 cluster2 : cure_cluster) :
  ((rep cluster1 = [] \/ rep cluster2 = []) /\
   cluster_distance euclidean_distance cluster1 cluster2 = Inf) \/
  (exists ri rk, ri ∈ rep cluster1 /\ rk ∈ rep cluster2 /\
     cluster_distance euclidean_distance cluster1 cluster2
     = Fin (euclidean_distance ri rk) /\
     Forall (fun a => Forall (fun b =>
       (euclidean_distance ri rk <= euclidean_distance a b)%Q) (rep cluster2))
       (rep cluster1)).
Proof.
  destruct (rep cluster1) as [|a1 l1] eqn:E1.
  { left. split; [by left|]. unfold cluster_distance. by rewrite E1. }
  destruct (rep cluster2) as [|a2 l2] eqn:E2.
  { left. split; [by right|]. unfold cluster_distance. rewrite E1, E2.
    clear E1. generalize (a1 :: l1). intros l. by induction l. }
  right.
  destruct (cluster_distance_attained euclidean_distance cluster1 cluster2)
    as (ri & rk & Hri & Hrk & Hd); [by rewrite E1|by rewrite E2|].
  exists ri, rk. rewrite <- E1, <- E2. do 3 (split; [done|]).
  apply Forall_forall. intros a Ha. apply Forall_forall. intros b Hb.
  pose proof (cluster_distance_bound euclidean_distance cluster1 cluster2 a b Ha Hb) as Hle.
  rewrite Hd in Hle. simpl in Hle. by apply Qle_bool_iff.
Qed.

Lemma dist_leb_any_Inf a : dist_leb a Inf = true.
Proof. by destruct a. Qed.

Lemma cluster_distance_leb_swap (euclidean_distance : point -> point -> Q) x y :
  (forall p q, (euclidean_distance p q == euclidean_distance q p)%Q) ->
  dist_leb (cluster_distance euclidean_distance x y)
           (cluster_distance euclidean_distance y x) = true.
Proof.
  intros Hsym.
  destruct (rep y) as [|b ly] eqn:Ey.
  { assert (Hyx : cluster_distance euclidean_distance y x = Inf).
    { unfold cluster_distance. by rewrite Ey. }
    rewrite Hyx. apply dist_leb_any_Inf. }
  destruct (rep x) as [|a lx] eqn:Ex.
  { assert (Hyx : cluster_distance euclidean_distance y x = Inf).
    { unfold cluster_distance. rewrite Ex, Ey.
      clear Ey. generalize (b :: ly). intros l. by induction l. }
    rewrite Hyx. apply dist_leb_any_Inf. }
  destruct (cluster_distance_attained euclidean_distance y x)
    as (rk & ri & Hrk & Hri & Hd); [by rewrite Ey|by rewrite Ex|].
  rewrite Hd.
  pose proof (cluster_distance_bound euclidean_distance x y ri rk Hri Hrk) as Hle.
  destruct (cluster_distance euclidean_distance x y) as [d|]; [|done].
  simpl in *. apply Qle_bool_iff. apply Qle_bool_iff in Hle.
  by rewrite <- (Hsym ri rk).
Qed.

Lemma euclidean_distance_1d_sym p q :
  (euclidean_distance_1d p q == euclidean_distance_1d q p)%Q.
Proof.
  unfold euclidean_distance_1d.
  destruct p as [|x [|? ?]], q as [|y [|? ?]]; try reflexivity.
  rewrite <- (Qabs_opp (x - y)). apply Qabs_wd. ring.
Qed.

(** X5.  When the distance between points is symmetric, so is
    [__cluster_distance]: the two orders of the arguments give the same
    number. *)
Theorem cluster_distance_symmetric (euclidean_distance : point -> point -> Q)
    (cluster1 cluster2 : cure_cluster) :
  (forall p q, (euclidean_distance p q == euclidean_distance q p)%Q) ->
  dist_eq (cluster_distance euclidean_distance cluster1 cluster2)
          (cluster_distance euclidean_distance cluster2 cluster1).
Proof.
  intros Hsym. apply dist_leb_antisym; by apply cluster_distance_leb_swap.
Qed.

Lemma cluster_distance_symmetric_witness :
  dist_eq
    (cluster_distance euclidean_distance_1d
       (mk_cluster (line [0; 1]%Q) (Some [1 # 2]) (line [1 # 4; 3 # 4]%Q) None Inf None)
       (cure_cluster_new (Some [5%Q])))
    (cluster_distance euclidean_distance_1d
       (cure_cluster_new (Some [5%Q]))
       (mk_cluster (line [0; 1]%Q) (Some [1 # 2]) (line [1 # 4; 3 # 4]%Q) None Inf None)).
Proof.
  exact (cluster_distance_symmetric euclidean_distance_1d _ _ euclidean_distance_1d_sym).
Defined.

(** ** __closest_cluster *)

Section ClosestCluster.

Context {T : Type} `{SpatialIndex T}.

(** The candidates that the queries of [__closest_cluster] return, in the
    order in which the loops at lines 201-207 meet them. *)
Local Abbreviation candidates tr h cluster radius :=
  (concat ((fun pt => kd_find_nearest_dist_nodes pt radius tr) <$> rep (h !!! cluster))).

Local Abbreviation choose cluster :=
  (fun (best : option ident * dist) (cand : Q * option ident) =>
     let '(candidate_distance, kdtree_node) := cand in
     match kdtree_node with
     | Some payload =>
         if dist_ltb (Fin candidate_distance) best.2 && negb (Nat.eqb payload cluster)
         then (Some payload, Fin candidate_distance)
         else best
     | None => best
     end).

Lemma closest_cluster_flat tr h cluster radius :
  closest_cluster tr h cluster radius
  = foldl (choose cluster) (None, Inf) (candidates tr h cluster radius).
Proof.
  unfold closest_cluster. generalize (None : option ident, Inf).
  induction (rep (h !!! cluster)) as [|pt pts IH]; intros best; [done|].
  rewrite fmap_cons, foldl_step. simpl concat. rewrite foldl_app. apply IH.
Qed.

Lemma choose_invariant cluster (l : list (Q * option ident)) : forall seen best,
  (best = (None, Inf) /\
   Forall (fun cand : Q * option ident => cand.2 = None \/ cand.2 = Some cluster) seen) \/
  (exists q c, best = (Some c, Fin q) /\ c <> cluster /\ (q, Some c) ∈ seen /\
     Forall (fun cand : Q * option ident =>
       cand.2 = None \/ cand.2 = Some cluster \/ (q <= cand.1)%Q) seen) ->
  (foldl (choose cluster) best l = (None, Inf) /\
   Forall (fun cand : Q * option ident => cand.2 = None \/ cand.2 = Some cluster)
     (seen ++ l)) \/
  (exists q c, foldl (choose cluster) best l = (Some c, Fin q) /\ c <> cluster /\
     (q, Some c) ∈ seen ++ l /\
     Forall (fun cand : Q * option ident =>
       cand.2 = None \/ cand.2 = Some cluster \/ (q <= cand.1)%Q) (seen ++ l)).
Proof.
  induction l as [|[cq node] l IH]; intros seen best Hinv.
  - by rewrite app_nil_r.
  - rewrite foldl_step.
    replace (seen ++ (cq, node) :: l) with ((seen ++ [(cq, node)]) ++ l)
      by by rewrite <- app_assoc.
    apply IH. destruct node as [payload|]; cbn beta iota zeta.
    + destruct (Nat.eqb_spec payload cluster) as [->|Hne].
      * rewrite andb_false_r.
        destruct Hinv as [[-> Hall]|(q & c & -> & Hc & Hin & Hall)].
        -- left. split; [done|]. apply Forall_app. split; [done|].
           constructor; [by right|constructor].
        -- right. exists q, c. split; [done|]. split; [done|].
           split; [apply elem_of_app; by left|].
           apply Forall_app. split; [done|]. constructor; [|constructor].
           right. by left.
      * rewrite andb_true_r.
        destruct Hinv as [[-> Hall]|(q & c & -> & Hc & Hin & Hall)].
        -- simpl. right. exists cq, payload. split; [done|]. split; [done|].
           split; [apply elem_of_app; right; by left|].
           apply Forall_app. split.
           ++ eapply Forall_impl; [exact Hall|]. intros cand [Hn|Hs]; [by left|].
              right. by left.
           ++ constructor; [|constructor]. do 2 right. apply Qle_refl.
        -- simpl. destruct (Qltb cq q) eqn:E.
           ++ right. exists cq, payload. split; [done|]. split; [done|].
              split; [apply elem_of_app; right; by left|].
              apply Qltb_lt in E. apply Forall_app. split.
              ** eapply Forall_impl; [exact Hall|].
                 intros cand [Hn|[Hs|Hle]]; [by left|right; by left|].
                 do 2 right. eapply Qle_trans; [|exact Hle]. by apply Qlt_le_weak.
              ** constructor; [|constructor]. do 2 right. apply Qle_refl.
           ++ right. exists q, c. split; [done|]. split; [done|].
              split; [apply elem_of_app; by left|].
              apply Forall_app. split; [done|]. constructor; [|constructor].
              do 2 right. simpl. unfold Qltb in E. apply negb_false_iff in E.
              by apply Qle_bool_iff.
    + destruct Hinv as [[-> Hall]|(q & c & -> & Hc & Hin & Hall)].
      * left. split; [done|]. apply Forall_app. split; [done|].
        constructor; [by left|constructor].
      * right. exists q, c. split; [done|]. split; [done|].
        split; [apply elem_of_app; by left|].
        apply Forall_app. split; [done|]. constructor; [by left|constructor].
Qed.

End ClosestCluster.

(** X6.  What [__closest_cluster] returns.  Either every node that the
    queries return is [None] or carries the cluster itself, and the answer is
    ([None], [inf]); or the answer is the payload and the distance of one of
    the returned candidates, this payload is not the cluster itself, and no
    returned candidate with another payload than the cluster is nearer. *)
Theorem closest_cluster_never_itself {T : Type} `{SpatialIndex T}
    (tr : T) (h : heap) (cluster : ident) (radius : dist) :
  let candidates :=
    concat ((fun pt => kd_find_nearest_dist_nodes pt radius tr) <$> rep (h !!! cluster)) in
  (closest_cluster tr h cluster radius = (None, Inf) /\
   Forall (fun cand : Q * option ident => cand.2 = None \/ cand.2 = Some cluster)
     candidates) \/
  (exists q c, closest_cluster tr h cluster radius = (Some c, Fin q) /\
     c <> cluster /\ (q, Some c) ∈ candidates /\
     Forall (fun cand : Q * option ident =>
       cand.2 = None \/ cand.2 = Some cluster \/ (q <= cand.1)%Q) candidates).
Proof.
  cbn zeta. rewrite closest_cluster_flat.
  apply (choose_invariant cluster _ [] (None, Inf)). left. by split.
Qed.

(** ** __create_queue and the constructor *)

Lemma sort_by_distance_ascending h q :
  ascending (cached_distances h (sort_by_distance h q)) = true.
Proof.
  unfold sort_by_distance.
  assert (Hgen : forall acc, ascending (cached_distances h acc) = true ->
    ascending (cached_distances h
      (foldl (fun sorted x => insert_cluster h x sorted) acc q)) = true).
  { induction q as [|x q IH]; intros acc Hacc; [done|].
    rewrite foldl_step. apply IH. by apply insert_cluster_ascending. }
  by apply Hgen.
Qed.

Lemma create_queue_sorted (euclidean_distance : point -> point -> Q) data h q :
  create_queue euclidean_distance data = Ok (h, q) ->
  q = sort_by_distance h (seq 0 (length data)).
Proof.
  unfold create_queue. intros Hc.
  apply bind_Ok in Hc as (h' & _ & Hc). by injection Hc as <- <-.
Qed.

(** X7.  The constructor leaves the queue sorted: whenever [__init__]
    returns, the cached distances of the queue that it has built are in
    ascending order. *)
Theorem constructor_sorts_queue (euclidean_distance : point -> point -> Q)
    {T : Type} `{SpatialIndex T} (data : list point) (k R : Z) (c : Q)
    (s : cure (T := T)) :
  cure_init euclidean_distance data k R c = Ok s ->
  ascending (queue_distances s) = true.
Proof.
  unfold cure_init. intros Hinit.
  apply bind_Ok in Hinit as ([h q] & Hcq & [= <-]).
  unfold queue_distances. simpl.
  rewrite (create_queue_sorted _ _ _ _ Hcq).
  apply sort_by_distance_ascending.
Qed.

Lemma constructor_sorts_queue_witness :
  exists s : cure (T := list_index),
    cure_init euclidean_distance_1d (H := list_index_ops euclidean_distance_1d)
      (line [7; 10; 3; 7; 5; 8]%Q) 3 5 (1 # 2) = Ok s /\
    ascending (queue_distances s) = true.
Proof.
  destruct (cure_init euclidean_distance_1d (H := list_index_ops euclidean_distance_1d)
              (line [7; 10; 3; 7; 5; 8]%Q) 3 5 (1 # 2)) as [s|e] eqn:E;
    [|vm_compute in E; discriminate].
  exists s. split; [reflexivity|].
  exact (constructor_sorts_queue euclidean_distance_1d
           (line [7; 10; 3; 7; 5; 8]%Q) 3 5 (1 # 2) s E).
Defined.

Lemma dist_ltb_leb_trans a b c :
  dist_ltb a b = true -> dist_leb b c = true -> dist_ltb a c = true.
Proof.
  destruct a as [x|], b as [y|], c as [z|]; simpl; try done.
  rewrite !Qltb_lt, Qle_bool_iff. apply Qlt_le_trans.
Qed.

Lemma dist_ltb_Inf_false a : dist_ltb a Inf = false -> a = Inf.
Proof. by destruct a. Qed.

(** The scan of lines 295-300 over the first [m] clusters, for distances
    [D k] to cluster [k]: the first of the nearest clusters other than [i]. *)
Lemma nearest_scan (D : nat -> dist) (i m : nat) :
  let best := foldl (fun (best : dist * Z) (k : nat) =>
                if negb (Nat.eqb i k) then
                  if dist_ltb (D k) best.1 then (D k, Z.of_nat k) else best
                else best) (Inf, (-1)%Z) (seq 0 m) in
  (best = (Inf, (-1)%Z) /\ forall k, k < m -> k <> i -> D k = Inf) \/
  (exists j, j < m /\ j <> i /\ best = (D j, Z.of_nat j) /\
     forall k, k < m -> k <> i ->
       dist_leb (D j) (D k) = true /\ (k < j -> dist_ltb (D j) (D k) = true)).
Proof.
  induction m as [|m IH]; cbn zeta.
  - left. split; [done|]. intros k Hk. lia.
  - rewrite seq_S, foldl_app. simpl seq. rewrite foldl_step. cbn [foldl].
    cbn zeta in IH. set (best := foldl _ _ (seq 0 m)) in *.
    change (0 + m) with m.
    destruct (Nat.eqb_spec i m) as [->|Him]; cbn [negb].
    + destruct IH as [[Hb Hall]|(j & Hj & Hji & Hb & Hall)].
      * left. split; [done|]. intros k Hk Hkm. apply Hall; [lia|done].
      * right. exists j. split; [lia|]. do 2 (split; [done|]).
        intros k Hk Hkm. apply Hall; [lia|done].
    + destruct (dist_ltb (D m) best.1) eqn:E.
      * right. exists m. split; [lia|]. split; [done|]. split; [done|].
        intros k Hk Hki. destruct (decide (k = m)) as [->|Hkm].
        { split; [apply dist_leb_refl|lia]. }
        assert (Hlt : dist_ltb (D m) (D k) = true).
        { destruct IH as [[Hb Hall]|(j & Hj & Hji & Hb & Hall)].
          - rewrite Hb in E. simpl in E. rewrite (Hall k) by (done || lia). done.
          - rewrite Hb in E. simpl in E. eapply dist_ltb_leb_trans; [exact E|].
            apply Hall; [lia|done]. }
        split; [by apply dist_ltb_leb|done].
      * destruct IH as [[Hb Hall]|(j & Hj & Hji & Hb & Hall)].
        -- left. split; [done|]. intros k Hk Hki.
           destruct (decide (k = m)) as [->|Hkm]; [|apply Hall; [lia|done]].
           rewrite Hb in E. simpl in E. by apply dist_ltb_Inf_false.
        -- right. exists j. split; [lia|]. do 2 (split; [done|]).
           intros k Hk Hki. destruct (decide (k = m)) as [->|Hkm].
           ++ rewrite Hb in E. simpl in E. split; [by apply dist_ltb_false|lia].
           ++ apply Hall; [lia|done].
Qed.

Section CreateQueue.

Variable euclidean_distance : point -> point -> Q.

Local Abbreviation nearest_other := (nearest_other euclidean_distance).
Local Abbreviation cluster_distance := (cluster_distance euclidean_distance).

Lemma nearest_other_body (h h' : heap) q i :
  body <$> h = body <$> h' -> nearest_other h q i = nearest_other h' q i.
Proof.
  intros Hb. unfold nearest_other. generalize (Inf, (-1)%Z).
  induction (seq 0 (length q)) as [|k l IH]; intros best; [done|].
  rewrite !foldl_step.
  rewrite (cluster_distance_rep euclidean_distance (h !!! (q !!! i)) (h !!! (q !!! k))
             (h' !!! (q !!! i)) (h' !!! (q !!! k))) by by apply body_rep.
  apply IH.
Qed.

(** The loop of lines 291-303 over the indices [l]: the clusters it visits
    get the neighbour found by the scan; the others are as before. *)
Lemma create_queue_links (h0 : heap) (n : nat) (l : list nat) : forall h h',
  NoDup l -> Forall (fun i => i < n) l -> length h0 = n ->
  body <$> h = body <$> h0 ->
  foldl (fun (acc : result heap) (i : nat) =>
     h ← acc;
     let '(minimal_distance, closest_index_cluster) := nearest_other h (seq 0 n) i in
     c ← getitem_Z (seq 0 n) closest_index_cluster;
     Ok (update (seq 0 n !!! i) (set_distance minimal_distance)
           (update (seq 0 n !!! i) (set_closest (Some c)) h)))
   (Ok h) l = Ok h' ->
  body <$> h' = body <$> h0 /\
  (forall i, i ∉ l -> h' !!! i = h !!! i) /\
  (forall i, i ∈ l ->
     distance (h' !!! i) = (nearest_other h0 (seq 0 n) i).1 /\
     exists c, getitem_Z (seq 0 n) (nearest_other h0 (seq 0 n) i).2 = Ok c /\
               closest (h' !!! i) = Some c).
Proof.
  induction l as [|i l IH]; intros h h' Hnd Hl Hn Hb.
  - intros [= <-]. split; [done|]. split; [done|]. intros i Hi.
    by apply elem_of_nil in Hi.
  - rewrite foldl_step, bind_Ok_l.
    apply NoDup_cons in Hnd as [Hil Hnd].
    inversion Hl as [|? ? Hi Hl']; subst.
    rewrite (nearest_other_body h h0 _ i Hb).
    destruct (nearest_other h0 (seq 0 (length h0)) i) as [md idx] eqn:En.
    destruct (getitem_Z (seq 0 (length h0)) idx) as [c|e] eqn:Ec.
    2:{ intros Hf. exfalso. clear -Hf.
        induction l as [|k l IHl]; [done|]. by apply IHl. }
    rewrite bind_Ok_l.
    assert (Hsi : seq 0 (length h0) !!! i = i).
    { apply list_lookup_total_correct. by rewrite lookup_seq_lt. }
    rewrite Hsi. intros Hf.
    assert (Hlen : i < length h) by by rewrite (body_length _ _ Hb).
    destruct (IH (update i (set_distance md) (update i (set_closest (Some c)) h)) h'
                Hnd Hl' eq_refl) as (Hb' & Hout & Hin); [|exact Hf|].
    { rewrite !update_body by by intros ?. done. }
    split; [done|]. split.
    + intros j Hj. rewrite Hout by (intros ?; apply Hj; by right).
      rewrite !update_lookup_ne; [done| |]; intros ->; apply Hj; by left.
    + intros j Hj. apply elem_of_cons in Hj as [->|Hj]; [|by apply Hin].
      rewrite Hout by done. rewrite En. simpl.
      rewrite !update_lookup_eq by by rewrite ?update_length. simpl.
      split; [done|]. by exists c.
Qed.

End CreateQueue.

Lemma singletons_lookup (data : list point) k pk :
  data !! k = Some pk ->
  ((fun p => cure_cluster_new (Some p)) <$> data) !!! k = cure_cluster_new (Some pk).
Proof.
  intros Hk. apply list_lookup_total_correct. by rewrite list_lookup_fmap, Hk.
Qed.

(** X8.  The neighbours that the constructor gives.  When there are at least
    two points, the cluster of point [i] gets as [closest] the cluster of
    another point [j], and as [distance] the distance between the two
    points; no other point is nearer to point [i], and every other point
    before [j] in the input is strictly farther. *)
Theorem constructor_links_nearest (euclidean_distance : point -> point -> Q)
    {T : Type} `{SpatialIndex T} (data : list point) (k R : Z) (c : Q)
    (s : cure (T := T)) (i : nat) (p : point) :
  cure_init euclidean_distance data k R c = Ok s ->
  data !! i = Some p ->
  2 <= length data ->
  exists j pj, j <> i /\ data !! j = Some pj /\
    closest (objects s !!! i) = Some j /\
    distance (objects s !!! i) = Fin (euclidean_distance p pj) /\
    forall k pk, k <> i -> data !! k = Some pk ->
      (euclidean_distance p pj <= euclidean_distance p pk)%Q /\
      (k < j -> (euclidean_distance p pj < euclidean_distance p pk)%Q).
Proof.
  intros Hinit Hp Hn.
  unfold cure_init in Hinit. apply bind_Ok in Hinit as ([h q] & Hcq & [= <-]).
  simpl. unfold create_queue in Hcq.
  apply bind_Ok in Hcq as (h' & Hfold & [= <- <-]).
  set (h0 := (fun p => cure_cluster_new (Some p)) <$> data) in *.
  set (n := length data) in *.
  assert (Hlen0 : length h0 = n) by apply length_fmap.
  assert (Hi : i < n) by (by eapply lookup_lt_Some).
  rewrite length_seq in Hfold.
  destruct (create_queue_links euclidean_distance h0 n (seq 0 n) h0 h')
    as (_ & _ & Hin); [apply NoDup_seq| |done|done|exact Hfold|].
  { apply Forall_forall. intros x Hx. apply elem_of_seq in Hx. lia. }
  destruct (Hin i) as (Hd & c' & Hc' & Hcl); [apply elem_of_seq; lia|].
  set (D := fun k => cluster_distance euclidean_distance
                       (h0 !!! (seq 0 n !!! i)) (h0 !!! (seq 0 n !!! k))).
  assert (HN : nearest_other euclidean_distance h0 (seq 0 n) i
               = foldl (fun (best : dist * Z) (k : nat) =>
                   if negb (Nat.eqb i k) then
                     if dist_ltb (D k) best.1 then (D k, Z.of_nat k) else best
                   else best) (Inf, (-1)%Z) (seq 0 n)).
  { unfold nearest_other. by rewrite length_seq. }
  assert (HD : forall k pk, data !! k = Some pk -> D k = Fin (euclidean_distance p pk)).
  { intros k0 pk Hk. unfold D.
    assert (Hk' : k0 < n) by (by eapply lookup_lt_Some).
    rewrite (list_lookup_total_correct (seq 0 n) i i) by by rewrite lookup_seq_lt.
    rewrite (list_lookup_total_correct (seq 0 n) k0 k0) by by rewrite lookup_seq_lt.
    unfold h0. by rewrite (singletons_lookup data i p Hp), (singletons_lookup data k0 pk Hk). }
  pose proof (nearest_scan D i n) as Hscan. cbn zeta in Hscan. rewrite <- HN in Hscan.
  destruct Hscan as [[_ Hall]|(j & Hj & Hji & Hbest & Hall)].
  - exfalso. destruct (decide (i = 0)) as [->|Hi0].
    + destruct (lookup_lt_is_Some_2 data 1) as [p1 Hp1]; [fold n; lia|].
      specialize (Hall 1). rewrite (HD 1 p1 Hp1) in Hall. discriminate Hall; lia.
    + destruct (lookup_lt_is_Some_2 data 0) as [p0 Hp0]; [fold n; lia|].
      specialize (Hall 0). rewrite (HD 0 p0 Hp0) in Hall. discriminate Hall; lia.
  - destruct (lookup_lt_is_Some_2 data j) as [pj Hpj]; [done|].
    exists j, pj. do 2 (split; [done|]).
    rewrite Hbest in Hd, Hc'. simpl in Hd, Hc'.
    assert (c' = j) as ->.
    { unfold getitem_Z in Hc'. destruct (Z.ltb_spec (Z.of_nat j) 0); [lia|].
      rewrite Nat2Z.id in Hc'. unfold getitem in Hc'.
      rewrite lookup_seq_lt in Hc' by done. by injection Hc' as <-. }
    split; [done|]. split; [by rewrite Hd, (HD j pj Hpj)|].
    intros k0 pk Hk0 Hpk.
    assert (Hk' : k0 < n) by (by eapply lookup_lt_Some).
    destruct (Hall k0 Hk' Hk0) as [Hle Hlt].
    rewrite (HD j pj Hpj), (HD k0 pk Hpk) in Hle, Hlt. simpl in Hle, Hlt.
    split; [by apply Qle_bool_iff|]. intros Hkj. apply Qltb_lt. by apply Hlt.
Qed.

Lemma constructor_links_nearest_witness :
  exists (s : cure (T := list_index)) j pj,
    cure_init euclidean_distance_1d (H := list_index_ops euclidean_distance_1d)
      (line [0; 3; 1; 4]%Q) 2 5 (1 # 2) = Ok s /\
    j <> 1 /\ line [0; 3; 1; 4]%Q !! j = Some pj /\
    closest (objects s !!! 1) = Some j /\
    distance (objects s !!! 1) = Fin (euclidean_distance_1d [3%Q] pj).
Proof.
  destruct (cure_init euclidean_distance_1d (H := list_index_ops euclidean_distance_1d)
              (line [0; 3; 1; 4]%Q) 2 5 (1 # 2)) as [s|e] eqn:E;
    [|vm_compute in E; discriminate].
  destruct (constructor_links_nearest euclidean_distance_1d
              (H := list_index_ops euclidean_distance_1d)
              (line [0; 3; 1; 4]%Q) 2 5 (1 # 2) s 1 [3%Q] E eq_refl)
    as (j & pj & Hj & Hpj & Hc & Hd & _); [simpl; lia|].
  exists s, j, pj. by repeat split.
Defined.

(** ** process at the edges of its input *)

Lemma points_of_seq (h : heap) :
  (fun unit => points (h !!! unit)) <$> seq 0 (length h) = points <$> h.
Proof.
  apply list_eq. intros i. rewrite !list_lookup_fmap.
  destruct (decide (i < length h)) as [Hi|Hi].
  - rewrite lookup_seq_lt by done. simpl.
    destruct (lookup_lt_is_Some_2 h i Hi) as [x Hx].
    by rewrite Hx, (list_lookup_total_correct _ _ _ Hx).
  - rewrite lookup_seq_ge by lia. by rewrite lookup_ge_None_2 by lia.
Qed.

Lemma points_of_body (h h' : heap) :
  body <$> h = body <$> h' -> points <$> h = points <$> h'.
Proof.
  intros Hb.
  assert (Hp : forall g : heap, points <$> g = (fun t => t.1.1) <$> (body <$> g)).
  { intros g. rewrite <- list_fmap_compose. by apply list_fmap_ext. }
  by rewrite !Hp, Hb.
Qed.

Lemma process_stops {T : Type} `{SpatialIndex T}
    (euclidean_distance : point -> point -> Q) fuel (s : cure (T := T)) :
  loop_test s = false ->
  process euclidean_distance fuel s = Some (Ok (change_representation s)).
Proof. intros Ht. destruct fuel; simpl; by rewrite Ht. Qed.

(** X9.  When at least as many clusters are asked for as there are points
    and the constructor has returned, [process()] returns without a single
    merge, and [get_clusters()] gives one cluster per input point, holding
    just this point. *)
Theorem no_merge_when_enough_clusters (euclidean_distance : point -> point -> Q)
    {T : Type} `{SpatialIndex T} (data : list point) (k R : Z) (c : Q) (fuel : nat)
    (s : cure (T := T)) :
  (Z.of_nat (length data) <= k)%Z ->
  cure_init euclidean_distance data k R c = Ok s ->
  exists (s' : cure (T := T)) cl,
    process euclidean_distance fuel s = Some (Ok s') /\
    get_clusters s' = Some cl /\
    cl ≡ₚ (fun p => [p]) <$> data.
Proof.
  intros Hk Hinit.
  destruct (cure_init_Ok euclidean_distance data k R c)
    as (s0 & Hs & _ & Hnk & _ & _ & _ & Hb & Hq).
  assert (s0 = s) as -> by congruence.
  exists (change_representation s). eexists.
  split.
  { apply process_stops. unfold loop_test. rewrite Hnk, Hq, length_seq.
    apply Z.ltb_ge. lia. }
  split; [done|]. rewrite Hq.
  assert (Hlen : length (objects s) = length data).
  { by rewrite (body_length _ _ Hb), length_fmap. }
  rewrite <- Hlen, points_of_seq, (points_of_body _ _ Hb).
  rewrite <- list_fmap_compose. done.
Qed.

Lemma no_merge_when_enough_clusters_witness :
  exists (s s' : cure (T := list_index)) cl,
    cure_init euclidean_distance_1d (H := list_index_ops euclidean_distance_1d)
      (line [4; 1; 9]%Q) 3 5 (1 # 2) = Ok s /\
    process euclidean_distance_1d (H := list_index_ops euclidean_distance_1d) 0 s
      = Some (Ok s') /\
    get_clusters s' = Some cl /\
    cl ≡ₚ (fun p => [p]) <$> line [4; 1; 9]%Q.
Proof.
  destruct (cure_init euclidean_distance_1d (H := list_index_ops euclidean_distance_1d)
              (line [4; 1; 9]%Q) 3 5 (1 # 2)) as [s|e] eqn:E;
    [|vm_compute in E; discriminate].
  destruct (no_merge_when_enough_clusters euclidean_distance_1d
              (H := list_index_ops euclidean_distance_1d)
              (line [4; 1; 9]%Q) 3 5 (1 # 2) 0 s) as (s' & cl & Hp & Hcl & Hperm);
    [simpl; lia|exact E|].
  exists s, s', cl. split; [reflexivity|]. split; [exact Hp|]. split; [exact Hcl|exact Hperm].
Defined.

(** X10.  One point and no cluster asked for: the constructor makes the only
    cluster its own neighbour, at distance [inf] (the index [-1] of line 293
    counts from the end of the queue), and the first turn of [process()]
    raises [ValueError], because the cluster is removed from the queue twice
    (lines 102-103). *)
Theorem single_point_is_its_own_neighbour (euclidean_distance : point -> point -> Q)
    {T : Type} `{SpatialIndex T} (p : point) (k R : Z) (c : Q) (fuel : nat) :
  (k <= 0)%Z ->
  exists s : cure (T := T),
    cure_init euclidean_distance [p] k R c = Ok s /\
    queue s = [0] /\
    closest (objects s !!! 0) = Some 0 /\ distance (objects s !!! 0) = Inf /\
    process euclidean_distance (S fuel) s = Some (Raise ValueError).
Proof.
  intros Hk. eexists. split; [reflexivity|]. split; [reflexivity|].
  split; [reflexivity|]. split; [reflexivity|].
  change (process euclidean_distance (S fuel) ?s)
    with (if loop_test s then
            match merge_round euclidean_distance s with
            | Ok s1 => process euclidean_distance fuel s1
            | Raise e => Some (Raise e)
            end
          else Some (Ok (change_representation s))).
  match goal with
  | |- (if loop_test ?s then _ else _) = _ =>
      assert (Ht : loop_test s = true)
        by (unfold loop_test; apply Z.ltb_lt; simpl; lia);
      rewrite Ht
  end.
  reflexivity.
Qed.

Lemma single_point_is_its_own_neighbour_witness :
  exists s : cure (T := list_index),
    cure_init euclidean_distance_1d (H := list_index_ops euclidean_distance_1d)
      [[7%Q]] 0 5 (1 # 2) = Ok s /\
    queue s = [0] /\
    closest (objects s !!! 0) = Some 0 /\ distance (objects s !!! 0) = Inf /\
    process euclidean_distance_1d (H := list_index_ops euclidean_distance_1d) 1 s
      = Some (Raise ValueError).
Proof.
  apply (single_point_is_its_own_neighbour euclidean_distance_1d
           (H := list_index_ops euclidean_distance_1d) [7%Q] 0 5 (1 # 2) 0).
  lia.
Defined.

(** X11.  No point at all and a negative number of clusters: the loop test
    holds on the empty queue and [self.__queue[0]] raises [IndexError]. *)
Theorem empty_input_negative_count_raises (euclidean_distance : point -> point -> Q)
    {T : Type} `{SpatialIndex T} (k R : Z) (c : Q) (fuel : nat) :
  (k < 0)%Z ->
  exists s : cure (T := T),
    cure_init euclidean_distance [] k R c = Ok s /\
    queue s = [] /\
    process euclidean_distance (S fuel) s = Some (Raise IndexError).
Proof.
  intros Hk. eexists. split; [reflexivity|]. split; [reflexivity|].
  change (process euclidean_distance (S fuel) ?s)
    with (if loop_test s then
            match merge_round euclidean_distance s with
            | Ok s1 => process euclidean_distance fuel s1
            | Raise e => Some (Raise e)
            end
          else Some (Ok (change_representation s))).
  match goal with
  | |- (if loop_test ?s then _ else _) = _ =>
      assert (Ht : loop_test s = true)
        by (unfold loop_test; apply Z.ltb_lt; simpl; lia);
      rewrite Ht
  end.
  reflexivity.
Qed.

Lemma empty_input_negative_count_raises_witness :
  exists s : cure (T := list_index),
    cure_init euclidean_distance_1d (H := list_index_ops euclidean_distance_1d)
      [] (-1) 5 (1 # 2) = Ok s /\
    queue s = [] /\
    process euclidean_distance_1d (H := list_index_ops euclidean_distance_1d) 1 s
      = Some (Raise IndexError).
Proof.
  apply (empty_input_negative_count_raises euclidean_distance_1d
           (H := list_index_ops euclidean_distance_1d) (-1) 5 (1 # 2) 0).
  lia.
Defined.

(** ** The queue along the turns of the loop *)

Section QueueInvariant.

Variable euclidean_distance : point -> point -> Q.
Context {T : Type} `{SpatialIndex T}.

Local Abbreviation merge_round := (merge_round euclidean_distance).
Local Abbreviation turns := (turns euclidean_distance).
Local Abbreviation cure_init := (cure_init euclidean_distance (T := T)).

Lemma cure_init_queue_ok data k R c s :
  cure_init data k R c = Ok s ->
  queue_ok s /\ length (objects s) = length data /\
  length (queue s) = length data /\ number_cluster s = k.
Proof.
  intros Hs.
  destruct (cure_init_Ok euclidean_distance data k R c)
    as (s' & Hs' & _ & Hk & _ & _ & _ & Hb & Hq).
  assert (s' = s) as -> by congruence.
  assert (Hlen : length (objects s) = length data).
  { by rewrite (body_length _ _ Hb), length_fmap. }
  split; [split|].
  - rewrite Hq. apply NoDup_seq.
  - rewrite Hq, Hlen. apply Forall_forall. intros i Hi. apply elem_of_seq in Hi. lia.
  - split; [done|]. split; [by rewrite Hq, length_seq|done].
Qed.

Lemma merge_round_queue_ok s s' :
  queue_ok s -> merge_round s = Ok s' ->
  queue_ok s' /\ length (objects s') = S (length (objects s)).
Proof.
  intros [Hnd Hb] Hr.
  apply merge_round_inv in Hr as (c1 & c2 & q & m & _ & _ & Hperm & _ & Hbody & Hq' & _).
  assert (Hlen : length (objects s') = S (length (objects s))).
  { rewrite (body_length _ _ Hbody), length_app. simpl. lia. }
  rewrite Hperm in Hnd, Hb.
  apply NoDup_cons in Hnd as [_ Hnd]. apply NoDup_cons in Hnd as [_ Hnd].
  apply Forall_cons in Hb as [_ Hb]. apply Forall_cons in Hb as [_ Hb].
  split; [split|done].
  - rewrite Hq'. apply NoDup_cons. split; [|done].
    intros Hin. rewrite Forall_forall in Hb. specialize (Hb _ Hin). lia.
  - rewrite Hq', Hlen. constructor; [lia|].
    eapply Forall_impl; [exact Hb|]. intros i Hi. simpl in Hi. lia.
Qed.

Lemma turns_queue_ok s n s' :
  queue_ok s -> turns s n s' ->
  queue_ok s' /\ length (objects s') = length (objects s) + n /\
  length (queue s') + n = length (queue s) /\
  number_cluster s' = number_cluster s.
Proof.
  intros Hok Ht. induction Ht as [s|s s1 n s' Htest Hr Ht IH].
  - by rewrite !Nat.add_0_r.
  - destruct (merge_round_queue_ok s s1 Hok Hr) as [Hok1 Hlen1].
    destruct (IH Hok1) as (Hok' & Hlen & Hq & Hk).
    split; [done|]. split; [lia|]. split.
    { pose proof (merge_round_length euclidean_distance s s1 Hr). lia. }
    apply merge_round_inv in Hr as (? & ? & ? & ? & _ & _ & _ & _ & _ & _ & Hk' & _).
    congruence.
Qed.

Lemma turns_last s n s' :
  turns s (S n) s' ->
  exists s1, turns s n s1 /\ loop_test s1 = true /\ merge_round s1 = Ok s'.
Proof.
  revert s. induction n as [|n IH]; intros s Ht.
  - inversion Ht as [|? s1 ? ? Htest Hr Ht']; subst.
    inversion Ht'; subst. exists s. split; [constructor|done].
  - inversion Ht as [|? s1 ? ? Htest Hr Ht']; subst.
    destruct (IH _ Ht') as (s2 & Ht2 & Htest2 & Hr2).
    exists s2. split; [by econstructor|done].
Qed.

End QueueInvariant.

(** Three turns on the points 7, 10, 3, 7, 5, 8, used as a concrete run. *)
Lemma three_turns_1d :
  exists s0 s2 s3 : cure (T := list_index),
    cure_init euclidean_distance_1d (H := list_index_ops euclidean_distance_1d)
      (line [7; 10; 3; 7; 5; 8]%Q) 3 5 (1 # 2) = Ok s0 /\
    turns euclidean_distance_1d (H := list_index_ops euclidean_distance_1d) s0 2 s2 /\
    loop_test s2 = true /\
    merge_round euclidean_distance_1d (H := list_index_ops euclidean_distance_1d) s2
    = Ok s3.
Proof.
  eexists. eexists. eexists. split; [vm_compute; reflexivity|].
  split.
  { eapply turns_S; [vm_compute; reflexivity|vm_compute; reflexivity|].
    eapply turns_S; [vm_compute; reflexivity|vm_compute; reflexivity|].
    apply turns_0. }
  split; vm_compute; reflexivity.
Qed.

(** X12.  The queue never names a cluster twice.  After [n] complete turns
    of the loop, [n] clusters have been created beside the initial ones, the
    queue has [n] clusters less than at the start, and it names created
    clusters, each at most once. *)
Theorem queue_never_repeats (euclidean_distance : point -> point -> Q)
    {T : Type} `{SpatialIndex T} (data : list point) (k R : Z) (c : Q)
    (s0 s : cure (T := T)) (n : nat) :
  cure_init euclidean_distance data k R c = Ok s0 ->
  turns euclidean_distance s0 n s ->
  NoDup (queue s) /\
  Forall (fun i => i < length (objects s)) (queue s) /\
  length (objects s) = length data + n /\
  length (queue s) + n = length data.
Proof.
  intros Hinit Ht.
  destruct (cure_init_queue_ok euclidean_distance data k R c s0 Hinit)
    as (Hok & Hlen & Hq & _).
  destruct (turns_queue_ok euclidean_distance s0 n s Hok Ht) as ([Hnd Hb] & Hl & Hq' & _).
  split; [done|]. split; [done|]. split; lia.
Qed.

Lemma queue_never_repeats_witness :
  exists s0 s2 : cure (T := list_index),
    cure_init euclidean_distance_1d (H := list_index_ops euclidean_distance_1d)
      (line [7; 10; 3; 7; 5; 8]%Q) 3 5 (1 # 2) = Ok s0 /\
    turns euclidean_distance_1d (H := list_index_ops euclidean_distance_1d) s0 2 s2 /\
    NoDup (queue s2) /\ length (objects s2) = 8 /\ length (queue s2) + 2 = 6.
Proof.
  destruct three_turns_1d as (s0 & s2 & _ & E0 & Ht & _).
  exists s0, s2. split; [exact E0|]. split; [exact Ht|].
  destruct (queue_never_repeats euclidean_distance_1d
              (line [7; 10; 3; 7; 5; 8]%Q) 3 5 (1 # 2) s0 s2 2 E0 Ht)
    as (Hnd & _ & Hl & Hq).
  split; [exact Hnd|]. split; [exact Hl|exact Hq].
Defined.

(** X13.  What a turn of the loop does to the clusters.  In a turn that
    completes, the head of the queue is merged with its neighbour, which is
    another cluster of the queue; both leave the queue for good, one new
    cluster enters it, holding the member points of the head followed by
    those of the neighbour, and the other clusters of the queue keep their
    member points. *)
Theorem turn_merges_head_with_neighbour (euclidean_distance : point -> point -> Q)
    {T : Type} `{SpatialIndex T} (data : list point) (k R : Z) (c : Q)
    (s0 s s' : cure (T := T)) (n : nat) :
  cure_init euclidean_distance data k R c = Ok s0 ->
  turns euclidean_distance s0 n s ->
  merge_round euclidean_distance s = Ok s' ->
  exists cluster1 cluster2 rest,
    queue s !! 0 = Some cluster1 /\
    closest (objects s !!! cluster1) = Some cluster2 /\
    cluster1 <> cluster2 /\
    queue s ≡ₚ cluster1 :: cluster2 :: rest /\
    queue s' ≡ₚ length (objects s) :: rest /\
    (cluster1 ∉ queue s') /\ (cluster2 ∉ queue s') /\
    points (objects s' !!! length (objects s))
    = points (objects s !!! cluster1) ++ points (objects s !!! cluster2) /\
    forall i, i ∈ rest -> points (objects s' !!! i) = points (objects s !!! i).
Proof.
  intros Hinit Ht Hr.
  destruct (cure_init_queue_ok euclidean_distance data k R c s0 Hinit) as (Hok & _).
  destruct (turns_queue_ok euclidean_distance s0 n s Hok Ht) as ([Hnd Hb] & _).
  apply merge_round_inv in Hr
    as (c1 & c2 & q & m & Hhead & Hc & Hperm & Hm & Hbody & Hq' & _).
  exists c1, c2, q. do 2 (split; [done|]).
  rewrite Hperm in Hnd, Hb.
  apply NoDup_cons in Hnd as [H1 Hnd]. apply NoDup_cons in Hnd as [H2 Hnd].
  apply Forall_cons in Hb as [Hb1 Hb]. apply Forall_cons in Hb as [Hb2 Hb].
  rewrite Forall_forall in Hb.
  split. { intros ->. apply H1. by left. }
  do 2 (split; [done|]).
  split. { rewrite Hq'. intros [->|Hin]%elem_of_cons; [lia|]. apply H1. by right. }
  split. { rewrite Hq'. intros [->|Hin]%elem_of_cons; [lia|done]. }
  assert (Hp : forall i, points (objects s' !!! i) = points ((objects s ++ [m]) !!! i)).
  { intros i. pose proof (body_lookup _ _ i Hbody) as Hi. unfold body in Hi.
    by injection Hi. }
  split.
  - rewrite Hp, lookup_total_app_r by lia. rewrite Nat.sub_diag. simpl.
    by apply merge_clusters_body in Hm as [-> _].
  - intros i Hi. rewrite Hp, lookup_total_app_l; [done|]. by apply Hb.
Qed.

Lemma turn_merges_head_with_neighbour_witness :
  exists (s2 s3 : cure (T := list_index)) cluster1 cluster2 rest,
    merge_round euclidean_distance_1d (H := list_index_ops euclidean_distance_1d) s2
      = Ok s3 /\
    queue s2 !! 0 = Some cluster1 /\
    closest (objects s2 !!! cluster1) = Some cluster2 /\
    cluster1 <> cluster2 /\
    queue s3 ≡ₚ length (objects s2) :: rest /\
    (cluster1 ∉ queue s3) /\ (cluster2 ∉ queue s3).
Proof.
  destruct three_turns_1d as (s0 & s2 & s3 & E0 & Ht & _ & E3).
  destruct (turn_merges_head_with_neighbour euclidean_distance_1d
              (line [7; 10; 3; 7; 5; 8]%Q) 3 5 (1 # 2) s0 s2 s3 2 E0 Ht E3)
    as (c1 & c2 & rest & Hh & Hc & Hne & _ & Hq & H1 & H2 & _).
  exists s2, s3, c1, c2, rest. by repeat split.
Defined.

(** X14.  Whenever [process()] returns, [get_clusters()] gives as many
    clusters as were asked for, or as many as there are points when more
    were asked for, and the loop has made one turn for each cluster less
    than there are points. *)
Theorem process_returns_requested_count (euclidean_distance : point -> point -> Q)
    {T : Type} `{SpatialIndex T} (data : list point) (k R : Z) (c : Q)
    (s0 s' : cure (T := T)) (n : nat) :
  cure_init euclidean_distance data k R c = Ok s0 ->
  runs euclidean_distance s0 n s' ->
  exists cl, get_clusters s' = Some cl /\
    Z.of_nat (length cl) = Z.min k (Z.of_nat (length data)) /\
    n + length cl = length data.
Proof.
  intros Hinit Hruns.
  destruct (cure_init_queue_ok euclidean_distance data k R c s0 Hinit)
    as (Hok & _ & Hq0 & Hk0).
  apply runs_turns in Hruns as (s1 & Ht & Hstop & ->).
  destruct (turns_queue_ok euclidean_distance s0 n s1 Hok Ht) as (_ & _ & Hq1 & Hk1).
  eexists. split; [done|]. rewrite length_fmap.
  unfold loop_test in Hstop. apply Z.ltb_ge in Hstop. rewrite Hk1, Hk0 in Hstop.
  split; [|lia].
  destruct n as [|n]; [lia|].
  apply turns_last in Ht as (s2 & Ht2 & Htest & Hr).
  destruct (turns_queue_ok euclidean_distance s0 n s2 Hok Ht2) as (_ & _ & Hq2 & Hk2).
  pose proof (merge_round_length euclidean_distance s2 s1 Hr) as Hlen.
  unfold loop_test in Htest. apply Z.ltb_lt in Htest. rewrite Hk2, Hk0 in Htest.
  lia.
Qed.

Lemma process_returns_requested_count_witness :
  exists s' cl,
    run_1d 10 (line [7; 10; 3; 7; 5; 8]%Q) 2 5 (1 # 2) = Some (Ok s') /\
    get_clusters s' = Some cl /\ length cl = 2.
Proof.
  destruct (run_1d 10 (line [7; 10; 3; 7; 5; 8]%Q) 2 5 (1 # 2)) as [[s'|e]|] eqn:E;
    [|vm_compute in E; discriminate..].
  destruct (run_1d_runs _ _ _ _ _ _ E) as (s0 & n & Hinit & Hruns).
  destruct (process_returns_requested_count euclidean_distance_1d
              (line [7; 10; 3; 7; 5; 8]%Q) 2 5 (1 # 2) s0 s' n Hinit Hruns)
    as (cl & Hcl & Hlen & _).
  exists s', cl. split; [reflexivity|]. split; [exact Hcl|].
  simpl in Hlen. lia.
Defined.

Lemma list_remove_absent x l : x ∉ l -> list_remove x l = Raise ValueError.
Proof.
  intros Hnin. induction l as [|y l IH]; simpl; [done|].
  destruct (Nat.eqb_spec y x) as [->|Hne]; [exfalso; apply Hnin; by left|].
  rewrite IH; [done|]. intros Hl. apply Hnin. by right.
Qed.

(** X15.  How a turn of the loop can fail.  On points of one dimension, with
    a distance that is never negative and a number of clusters that is not
    negative, a turn of the loop either completes or raises [ValueError];
    and it raises exactly when the head of the queue has no neighbour, or a
    neighbour that is the head itself or is no longer in the queue.  (The
    operations of the spatial index are functions of the interface
    [SpatialIndex]: they return.) *)
Theorem turn_fails_only_on_lost_neighbour (euclidean_distance : point -> point -> Q)
    {T : Type} `{SpatialIndex T} (d : nat) (data : list point) (k R : Z) (c : Q)
    (s0 s : cure (T := T)) (n : nat) :
  (forall p q, (0 <= euclidean_distance p q)%Q) ->
  Forall (fun p => length p = d) data ->
  (0 <= k)%Z ->
  cure_init euclidean_distance data k R c = Ok s0 ->
  turns euclidean_distance s0 n s ->
  loop_test s = true ->
  exists cluster1, queue s !! 0 = Some cluster1 /\
    ((exists s' cluster2, merge_round euclidean_distance s = Ok s' /\
        closest (objects s !!! cluster1) = Some cluster2 /\
        cluster2 <> cluster1 /\ cluster2 ∈ queue s) \/
     (merge_round euclidean_distance s = Raise ValueError /\
      match closest (objects s !!! cluster1) with
      | None => True
      | Some cluster2 => cluster2 = cluster1 \/ cluster2 ∉ queue s
      end)).
Proof.
  intros Hnonneg Hd Hk Hinit Ht Htest.
  destruct (cure_init_state_ok euclidean_distance d data k R c s0 Hd Hinit) as [Hok0 _].
  destruct (turns_invariant euclidean_distance d s0 n s Hok0 Ht) as ([Hobj Hb] & _ & _ & Hnk).
  destruct (cure_init_queue_ok euclidean_distance data k R c s0 Hinit)
    as (Hqok & _ & _ & Hk0).
  destruct (turns_queue_ok euclidean_distance s0 n s Hqok Ht) as ([Hnd _] & _).
  unfold loop_test in Htest. apply Z.ltb_lt in Htest. rewrite Hnk, Hk0 in Htest.
  destruct (queue s) as [|c1 rest] eqn:Hq; [simpl in Htest; lia|].
  exists c1. split; [done|].
  apply NoDup_cons in Hnd as [H1 _].
  assert (Hwf : forall i, i ∈ c1 :: rest -> well_formed d (objects s !!! i)).
  { intros i Hi. rewrite Forall_forall in Hb. specialize (Hb i Hi).
    destruct (lookup_lt_is_Some_2 (objects s) i Hb) as [x Hx].
    rewrite (list_lookup_total_correct _ _ _ Hx).
    by destruct (Forall_lookup_1 _ _ _ _ Hobj Hx). }
  destruct (closest (objects s !!! c1)) as [c2|] eqn:Hc.
  - destruct (decide (c2 ∈ rest)) as [Hin|Hnin].
    + left.
      destruct (merge_round_Ok euclidean_distance s c1 c2 rest Hq Hc Hin) as [s' Hs'].
      { destruct (merge_clusters_well_formed euclidean_distance Hnonneg d
                    (number_represent_points s) (compression s)
                    (objects s !!! c1) (objects s !!! c2))
          as (? & ? & ? & ? & ? & _ & _ & _ & _ & _ & Hm).
        - apply Hwf. by left.
        - apply Hwf. by right.
        - by eexists. }
      exists s', c2. split; [done|]. split; [done|].
      split; [intros ->; done|by right].
    + right. split.
      * unfold merge_round. rewrite Hq.
        change (getitem (c1 :: rest) 0) with (Ok c1 : result ident).
        rewrite bind_Ok_l, Hc, bind_Ok_l.
        change (list_remove c1 (c1 :: rest))
          with (if Nat.eqb c1 c1 then Ok rest
                else l'' ← list_remove c1 rest; Ok (c1 :: l'')).
        rewrite Nat.eqb_refl, bind_Ok_l.
        by rewrite (list_remove_absent c2 rest Hnin).
      * destruct (decide (c2 = c1)) as [->|Hne]; [by left|]. right.
        intros [->|Hin]%elem_of_cons; done.
  - right. split; [|done].
    unfold merge_round. rewrite Hq.
    change (getitem (c1 :: rest) 0) with (Ok c1 : result ident).
    by rewrite bind_Ok_l, Hc.
Qed.

Lemma turn_fails_only_on_lost_neighbour_witness :
  exists (s2 : cure (T := list_index)) cluster1,
    loop_test s2 = true /\ queue s2 !! 0 = Some cluster1 /\
    ((exists s' cluster2,
        merge_round euclidean_distance_1d (H := list_index_ops euclidean_distance_1d) s2
          = Ok s' /\
        closest (objects s2 !!! cluster1) = Some cluster2 /\
        cluster2 <> cluster1 /\ cluster2 ∈ queue s2) \/
     (merge_round euclidean_distance_1d (H := list_index_ops euclidean_distance_1d) s2
        = Raise ValueError /\
      match closest (objects s2 !!! cluster1) with
      | None => True
      | Some cluster2 => cluster2 = cluster1 \/ cluster2 ∉ queue s2
      end)).
Proof.
  destruct three_turns_1d as (s0 & s2 & s3 & E0 & Ht & Htest & _).
  destruct (turn_fails_only_on_lost_neighbour euclidean_distance_1d
              (H := list_index_ops euclidean_distance_1d) 1
              (line [7; 10; 3; 7; 5; 8]%Q) 3 5 (1 # 2) s0 s2 2
              euclidean_distance_1d_nonneg) as (c1 & Hh & Hcases);
    [by repeat constructor|lia|exact E0|exact Ht|exact Htest|].
  exists s2, c1. split; [exact Htest|]. split; [exact Hh|exact Hcases].
Defined.

(** ** The neighbour of the merged cluster (lines 117-125) *)

Section MergedNeighbour.

Variable euclidean_distance : point -> point -> Q.
Context {T : Type} `{SpatialIndex T}.

Local Abbreviation repair_item := (repair_item euclidean_distance).
Local Abbreviation cluster_distance := (cluster_distance euclidean_distance).

Lemma repair_item_merged tr c1 c2 m h requests item :
  item <> m -> m < length h ->
  (repair_item tr c1 c2 m (h, requests) item).1 !!! m
  = if dist_ltb (cluster_distance (h !!! m) (h !!! item)) (distance (h !!! m))
    then set_distance (cluster_distance (h !!! m) (h !!! item))
           (set_closest (Some item) (h !!! m))
    else h !!! m.
Proof.
  intros Hne Hm. unfold repair_item.
  set (d := cluster_distance (h !!! m) (h !!! item)).
  set (h1 := if dist_ltb d (distance (h !!! m)) then _ else h).
  assert (H1 : h1 !!! m = if dist_ltb d (distance (h !!! m))
                          then set_distance d (set_closest (Some item) (h !!! m))
                          else h !!! m).
  { unfold h1. destruct (dist_ltb d _); [|done].
    by rewrite !update_lookup_eq by by rewrite ?update_length. }
  rewrite <- H1.
  destruct (match closest (h1 !!! item) with Some c => _ | None => false end).
  - destruct (dist_ltb (distance (h1 !!! item)) d); simpl.
    + destruct (closest_cluster tr h1 item d) as [nc nd].
      destruct (closest _); simpl; by rewrite !update_lookup_ne.
    + by rewrite !update_lookup_ne.
  - destruct (dist_ltb d (distance (h1 !!! item))); simpl; [|done].
    by rewrite !update_lookup_ne.
Qed.

Lemma repair_items_merged tr c1 c2 m (h : heap) (q l : list ident) :
  forall seen hc requests,
  (forall i, i ∈ l -> i ∈ q /\ i <> m) -> m < length h ->
  body <$> hc = body <$> h ->
  (exists j, j ∈ q /\ closest (hc !!! m) = Some j /\
     distance (hc !!! m) = cluster_distance (h !!! m) (h !!! j) /\
     Forall (fun i => dist_leb (distance (hc !!! m))
                        (cluster_distance (h !!! m) (h !!! i)) = true) seen) ->
  exists j, j ∈ q /\
    closest ((foldl (repair_item tr c1 c2 m) (hc, requests) l).1 !!! m) = Some j /\
    distance ((foldl (repair_item tr c1 c2 m) (hc, requests) l).1 !!! m)
    = cluster_distance (h !!! m) (h !!! j) /\
    Forall (fun i =>
      dist_leb (distance ((foldl (repair_item tr c1 c2 m) (hc, requests) l).1 !!! m))
        (cluster_distance (h !!! m) (h !!! i)) = true) (seen ++ l).
Proof.
  induction l as [|item l IH]; intros seen hc requests Hl Hm Hb Hinv.
  - by rewrite app_nil_r.
  - rewrite foldl_step.
    replace (seen ++ item :: l) with ((seen ++ [item]) ++ l) by by rewrite <- app_assoc.
    destruct (Hl item) as [Hiq Him]; [by left|].
    destruct (repair_item tr c1 c2 m (hc, requests) item) as [hn rn] eqn:E.
    assert (Hn : hn = (repair_item tr c1 c2 m (hc, requests) item).1) by by rewrite E.
    apply IH; [intros i Hi; apply Hl; by right|done| |].
    { rewrite Hn, <- Hb. apply repair_item_body. }
    rewrite Hn, repair_item_merged; [|done|by rewrite (body_length _ _ Hb)].
    assert (Hd : cluster_distance (hc !!! m) (hc !!! item)
                 = cluster_distance (h !!! m) (h !!! item)).
    { apply cluster_distance_rep; by apply body_rep. }
    rewrite Hd. destruct Hinv as (j & Hj & Hc & Hdj & Hall).
    destruct (dist_ltb _ (distance (hc !!! m))) eqn:Elt.
    + exists item. split; [done|]. split; [done|]. split; [done|]. simpl.
      apply Forall_app. split.
      * eapply Forall_impl; [exact Hall|]. intros i Hi. simpl in Hi.
        apply dist_ltb_leb. by eapply dist_ltb_leb_trans.
      * constructor; [apply dist_leb_refl|constructor].
    + exists j. split; [done|]. split; [done|]. split; [done|].
      apply Forall_app. split; [done|].
      constructor; [by apply dist_ltb_false|constructor].
Qed.

End MergedNeighbour.

(** X16.  After the loop of lines 120-152 the merged cluster knows its
    nearest neighbour: its [closest] is a cluster of the queue, its
    [distance] is the distance to that cluster, and no cluster of the queue
    is nearer to it. *)
Theorem merged_cluster_gets_nearest (euclidean_distance : point -> point -> Q)
    {T : Type} `{SpatialIndex T} (tr : T) (cluster1 cluster2 merged : ident)
    (h : heap) (q : list ident) :
  q <> [] -> merged ∉ q -> merged < length h ->
  exists j, j ∈ q /\
    closest ((repair euclidean_distance tr cluster1 cluster2 merged h q).1 !!! merged)
    = Some j /\
    distance ((repair euclidean_distance tr cluster1 cluster2 merged h q).1 !!! merged)
    = cluster_distance euclidean_distance (h !!! merged) (h !!! j) /\
    Forall (fun i =>
      dist_leb
        (distance ((repair euclidean_distance tr cluster1 cluster2 merged h q).1 !!! merged))
        (cluster_distance euclidean_distance (h !!! merged) (h !!! i)) = true) q.
Proof.
  intros Hq Hm Hlen. unfold repair. destruct q as [|first q0]; [done|].
  match goal with |- context [foldl _ (?x, [])] => set (h0 := x) end.
  assert (Hb0 : body <$> h0 = body <$> h).
  { unfold h0. rewrite !update_body; [done| |]; by intros ?. }
  apply (repair_items_merged euclidean_distance tr cluster1 cluster2 merged h
           (first :: q0) (first :: q0) [] h0 []); [|done|done|].
  { intros i Hi. split; [done|]. intros ->. done. }
  exists first. split; [by left|]. unfold h0.
  rewrite !update_lookup_eq by by rewrite ?update_length. simpl.
  split; [done|]. split; [|constructor].
  apply cluster_distance_rep; [done|].
  apply body_rep. by rewrite update_body.
Qed.

Lemma merged_cluster_gets_nearest_witness :
  exists (h h' : heap) (tr : list_index) (requests : list ident),
    rep (h !!! 4) = line [14 # 10; 18 # 10]%Q /\
    repair euclidean_distance_1d (H := list_index_ops euclidean_distance_1d)
      tr 2 3 4 h [1; 0] = (h', requests) /\
    exists j, j ∈ [1; 0] /\ closest (h' !!! 4) = Some j /\
      distance (h' !!! 4) = cluster_distance euclidean_distance_1d (h !!! 4) (h !!! j).
Proof.
  exists [mk_cluster [[-13 # 10]%Q] (Some [-13 # 10]%Q) [[-13 # 10]%Q] (Some 1) (Fin (13 # 10)) None;
          mk_cluster [[0]%Q] (Some [0]%Q) [[0]%Q] (Some 2) (Fin (12 # 10)) None;
          mk_cluster [[12 # 10]%Q] (Some [12 # 10]%Q) [[12 # 10]%Q] (Some 3) (Fin (8 # 10)) None;
          mk_cluster [[2]%Q] (Some [2]%Q) [[2]%Q] (Some 2) (Fin (8 # 10)) None;
          mk_cluster [[12 # 10]; [2]]%Q (Some [16 # 10]%Q) [[14 # 10]; [18 # 10]]%Q None Inf None].
  eexists. exists [([-13 # 10]%Q, 0); ([0]%Q, 1); ([14 # 10]%Q, 4); ([18 # 10]%Q, 4)].
  eexists. split; [reflexivity|]. split; [apply surjective_pairing|].
  match goal with
  | |- context [repair _ ?tr ?c1 ?c2 ?m ?h ?q] =>
      destruct (merged_cluster_gets_nearest euclidean_distance_1d
                  (H := list_index_ops euclidean_distance_1d) tr c1 c2 m h q)
        as (j & Hj & Hc & Hd & _)
  end.
  - discriminate.
  - by apply (bool_decide_unpack _).
  - simpl. lia.
  - exists j. split; [exact Hj|]. split; [exact Hc|exact Hd].
Defined.

(** ** The representative points of a merged cluster (lines 270-275) *)

Lemma shrunk_point_eq (c : Q) (mean_ p target : point) :
  length target = length mean_ ->
  (forall i, i < length mean_ ->
     (coordinate p i + c * (coordinate mean_ i - coordinate p i)
      == coordinate target i)%Q) ->
  point_eq (shrunk c mean_ p) target.
Proof.
  intros Hlen Heq. unfold point_eq, shrunk.
  apply Forall2_same_length_lookup. split.
  - by rewrite length_fmap, length_seq.
  - intros i x y Hx Hy.
    assert (Hi : i < length mean_) by (rewrite <- Hlen; by eapply lookup_lt_Some).
    rewrite list_lookup_fmap, lookup_seq_lt in Hx by done. simpl in Hx.
    injection Hx as <-. rewrite (Heq i Hi). unfold coordinate.
    by rewrite (nth_lookup_Some _ _ _ _ Hy).
Qed.

Section Representatives.

Variable euclidean_distance : point -> point -> Q.
Hypothesis euclidean_distance_nonneg : forall p q, (0 <= euclidean_distance p q)%Q.

(** The representative points of a merged cluster are member points moved
    towards the mean. *)
Lemma merge_clusters_representatives d R c cluster1 cluster2 :
  well_formed d cluster1 -> well_formed d cluster2 ->
  exists m mean_, merge_clusters euclidean_distance R c cluster1 cluster2 = Ok m /\
    mean m = Some mean_ /\ length mean_ = d /\
    points m = points cluster1 ++ points cluster2 /\
    Forall (fun r => exists p, p ∈ points m /\ length p = d /\ r = shrunk c mean_ p)
      (rep m).
Proof.
  intros W1 W2.
  destruct (merge_clusters_well_formed euclidean_distance euclidean_distance_nonneg
              d R c cluster1 cluster2 W1 W2)
    as (m1 & m2 & first & second & l & Hm1 & Hm2 & Hfirst & Hsecond & Hl & Hm).
  cbn zeta in Hfirst, Hsecond, Hl, Hm.
  destruct W1 as (_ & Hd1 & m1' & Hm1' & Hl1).
  destruct W2 as (_ & Hd2 & _).
  assert (m1' = m1) as -> by congruence.
  eexists. eexists. split; [exact Hm|]. simpl. split; [done|].
  split. { unfold weighted_mean. by rewrite length_fmap, length_seq. }
  split; [done|].
  apply Forall_fmap, Forall_forall. intros p Hp. exists p.
  assert (Hin : p ∈ points cluster1 ++ points cluster2).
  { apply (selected_elem R first second).
    - by eapply is_last_farthest_elem.
    - by eapply is_last_farthest_elem.
    - rewrite Hl. by apply list_elem_of_fmap_2. }
  split; [done|]. split; [|done].
  apply elem_of_app in Hin as [Hin|Hin].
  - rewrite Forall_forall in Hd1. by apply Hd1.
  - rewrite Forall_forall in Hd2. by apply Hd2.
Qed.

End Representatives.



(** X18.  In exact arithmetic, compression [1] collapses everything: the
    merge of two clusters of one dimension succeeds and every representative
    point [p + 1 * (mean - p)] of the merged cluster is the same number as
    its mean, coordinate by coordinate.  (In floating point the two agree up
    to rounding only.) *)
Theorem full_compression_collapses_to_mean (euclidean_distance : point -> point -> Q)
    (d : nat) (R : Z) (c : Q) (cluster1 cluster2 : cure_cluster) :
  (forall p q, (0 <= euclidean_distance p q)%Q) ->
  well_formed d cluster1 -> well_formed d cluster2 ->
  (c == 1)%Q ->
  exists m mean_, merge_clusters euclidean_distance R c cluster1 cluster2 = Ok m /\
    mean m = Some mean_ /\
    Forall (fun r => point_eq r mean_) (rep m).
Proof.
  intros Hnonneg W1 W2 Hc.
  destruct (merge_clusters_representatives euclidean_distance Hnonneg d R c
              cluster1 cluster2 W1 W2) as (m & mean_ & Hm & Hmean & Hlen & _ & Hrep).
  exists m, mean_. do 2 (split; [done|]). eapply Forall_impl; [exact Hrep|].
  intros r (p & Hp & Hpd & ->).
  apply shrunk_point_eq; [done|]. intros i _. rewrite Hc. ring.
Qed.

Lemma full_compression_collapses_to_mean_witness :
  exists m mean_,
    merge_clusters euclidean_distance_1d 5 1
      (cure_cluster_new (Some [1%Q])) (cure_cluster_new (Some [5%Q])) = Ok m /\
    mean m = Some mean_ /\
    Forall (fun r => point_eq r mean_) (rep m).
Proof.
  apply (full_compression_collapses_to_mean euclidean_distance_1d 1 5 1 _ _
           euclidean_distance_1d_nonneg).
  - split; [discriminate|]. split; [by repeat constructor|]. by exists [1%Q].
  - split; [discriminate|]. split; [by repeat constructor|]. by exists [5%Q].
  - reflexivity.
Defined.

(** ** Clusters of different dimensions *)

Lemma mapM_first_failure {A B} (f : A -> result B) (l1 l2 : list A) (x : A) (e : exn) :
  (forall y, y ∈ l1 -> is_Ok (f y)) -> f x = Raise e ->
  mapM f (l1 ++ x :: l2) = Raise e.
Proof.
  intros Hl1 Hx. induction l1 as [|a l1 IH]; simpl.
  - by rewrite Hx.
  - destruct (Hl1 a) as [b Hb]; [by left|]. rewrite Hb. simpl.
    rewrite IH; [done|]. intros y Hy. apply Hl1. by right.
Qed.

(** X19.  Merging with a cluster whose mean has fewer coordinates raises
    [IndexError]: the loop of lines 245-246 runs over the coordinates of the
    mean of the first cluster and reads the mean of the second at each of
    them. *)
Theorem merge_with_shorter_mean_raises (euclidean_distance : point -> point -> Q)
    (R : Z) (c : Q) (cluster1 cluster2 : cure_cluster) (mean1 mean2 : point) :
  mean cluster1 = Some mean1 -> mean cluster2 = Some mean2 ->
  length mean2 < length mean1 ->
  points cluster1 ++ points cluster2 <> [] ->
  merge_clusters euclidean_distance R c cluster1 cluster2 = Raise IndexError.
Proof.
  intros H1 H2 Hlen Hpts. unfold merge_clusters.
  assert (Hm : merged_mean cluster1 cluster2 = Raise IndexError); [|by rewrite Hm].
  unfold merged_mean. rewrite H1, H2.
  assert (Hn : Nat.eqb (length (points cluster1) + length (points cluster2)) 0 = false).
  { apply Nat.eqb_neq. intros Hz. apply Hpts.
    apply length_zero_iff_nil. rewrite length_app. lia. }
  replace (seq 0 (length mean1))
    with (seq 0 (length mean2) ++ length mean2
            :: seq (S (length mean2)) (length mean1 - S (length mean2))).
  2:{ change (length mean2 :: seq (S (length mean2)) (length mean1 - S (length mean2)))
        with (seq (0 + length mean2) (S (length mean1 - S (length mean2)))).
      rewrite <- seq_app. f_equal. lia. }
  apply mapM_first_failure.
  - intros i Hi. apply elem_of_seq in Hi.
    destruct (lookup_lt_is_Some_2 mean1 i) as [x Hx]; [lia|].
    destruct (lookup_lt_is_Some_2 mean2 i) as [y Hy]; [lia|].
    unfold getitem. rewrite Hx. simpl. rewrite Hy. simpl. rewrite Hn. by eexists.
  - destruct (lookup_lt_is_Some_2 mean1 (length mean2)) as [x Hx]; [lia|].
    unfold getitem. rewrite Hx. simpl.
    by rewrite (lookup_ge_None_2 mean2 (length mean2)) by lia.
Qed.

Lemma merge_with_shorter_mean_raises_witness :
  merge_clusters euclidean_distance_sqrt 5 (1 # 2)
    (cure_cluster_new (Some [1; 2]%Q)) (cure_cluster_new (Some [5%Q]))
  = Raise IndexError.
Proof.
  apply (merge_with_shorter_mean_raises euclidean_distance_sqrt 5 (1 # 2)
           (cure_cluster_new (Some [1; 2]%Q)) (cure_cluster_new (Some [5%Q]))
           [1; 2]%Q [5%Q]).
  - reflexivity.
  - reflexivity.
  - simpl. lia.
  - discriminate.
Defined.

(** * Elbow method: properties *)

Lemma range_length a b : length (Elbow.range a b) = Z.to_nat (b - a).
Proof. unfold Elbow.range. by rewrite length_fmap, length_seq. Qed.

Lemma range_elem a b x : x ∈ Elbow.range a b <-> (a <= x < b)%Z.
Proof.
  unfold Elbow.range. rewrite list_elem_of_fmap. split.
  - intros (i & -> & Hi). apply elem_of_seq in Hi. lia.
  - intros Hx. exists (Z.to_nat (x - a)). split; [lia|]. apply elem_of_seq. lia.
Qed.

Lemma range_lookup a b i :
  i < Z.to_nat (b - a) -> Elbow.range a b !! i = Some (a + Z.of_nat i)%Z.
Proof.
  intros Hi. unfold Elbow.range. by rewrite list_lookup_fmap, lookup_seq_lt.
Qed.

Lemma mapM_is_Ok {A B} (f : A -> result B) (l : list A) :
  (forall x, x ∈ l -> is_Ok (f x)) -> is_Ok (mapM f l).
Proof.
  induction l as [|a l IH]; intros Hf; simpl; [by eexists|].
  destruct (Hf a) as [b Hb]; [by left|]. rewrite Hb. simpl.
  destruct IH as [k Hk]; [intros x Hx; apply Hf; by right|]. rewrite Hk. by eexists.
Qed.

Lemma getitem_Z_nonneg {A} (l : list A) (z : Z) (x : A) :
  (0 <= z)%Z -> l !! Z.to_nat z = Some x -> getitem_Z l z = Ok x.
Proof.
  intros Hz Hx. unfold getitem_Z. destruct (Z.ltb_spec z 0); [lia|].
  unfold getitem. by rewrite Hx.
Qed.

(** The first of the greatest items of a list. *)
Lemma py_max_fold (l : list Q) : forall m,
  let v := foldl (fun m y => if Qltb m y then y else m) m l in
  (m <= v)%Q /\ Forall (fun x => (x <= v)%Q) l /\ (v = m \/ v ∈ l).
Proof.
  induction l as [|y l IH]; intros m; cbn zeta.
  - split; [apply Qle_refl|]. split; [constructor|by left].
  - rewrite foldl_step.
    set (m' := if Qltb m y then y else m).
    destruct (IH m') as (Hle & Hall & Hin).
    assert (Hm' : (m <= m')%Q /\ (y <= m')%Q /\ (m' = m \/ m' = y)).
    { unfold m'. destruct (Qltb m y) eqn:E.
      - apply Qltb_lt in E. split; [by apply Qlt_le_weak|]. split; [apply Qle_refl|by right].
      - unfold Qltb in E. apply negb_false_iff, Qle_bool_iff in E.
        split; [apply Qle_refl|]. split; [done|by left]. }
    destruct Hm' as (Hm1 & Hm2 & Hm3).
    split; [by eapply Qle_trans|]. split.
    + constructor; [by eapply Qle_trans|done].
    + destruct Hin as [Hv|Hv]; [|right; by right].
      destruct Hm3 as [Hm3|Hm3]; [left; exact (eq_trans Hv Hm3)|].
      right. apply elem_of_cons. left. exact (eq_trans Hv Hm3).
Qed.

Lemma py_max_spec (l : list Q) :
  l <> [] ->
  exists v, Elbow.py_max l = Ok v /\ v ∈ l /\ Forall (fun x => (x <= v)%Q) l.
Proof.
  destruct l as [|x l]; [done|]. intros _. simpl. eexists. split; [done|].
  destruct (py_max_fold l x) as (Hle & Hall & Hin). cbn zeta in Hle, Hall, Hin.
  split.
  - destruct Hin as [Hv|Hv]; [rewrite Hv; by left|by right].
  - by constructor.
Qed.

Lemma py_index_spec (v : Q) (l : list Q) :
  v ∈ l ->
  exists i x, Elbow.py_index v l = Ok i /\ l !! i = Some x /\ (x == v)%Q /\
    forall j y, j < i -> l !! j = Some y -> ~ (y == v)%Q.
Proof.
  induction l as [|a l IH]; intros Hin; [by apply elem_of_nil in Hin|]. simpl.
  destruct (Qeq_bool a v) eqn:E.
  - exists 0, a. split; [done|]. split; [done|]. split; [by apply Qeq_bool_iff|].
    intros j y Hj. lia.
  - assert (Hne : ~ (a == v)%Q).
    { intros Heq. apply Qeq_bool_iff in Heq. congruence. }
    apply elem_of_cons in Hin as [->|Hin]; [exfalso; by apply Hne|].
    destruct (IH Hin) as (i & x & -> & Hx & Hxv & Hbefore).
    exists (S i), x. split; [done|]. split; [done|]. split; [done|].
    intros [|j] y Hj Hy; simpl in Hy.
    + by injection Hy as <-.
    + apply (Hbefore j y); [lia|done].
Qed.

(** The values that [__calculate_elbows] appends. *)
Lemma calculate_elbows_values (e : Elbow.elbow) :
  Elbow.calculate_elbows e
  = Ok (Elbow.mk_elbow (Elbow.data e) (Elbow.kmin e) (Elbow.kmax e) (Elbow.wce e)
          (Elbow.elbows e ++
             ((fun idx : Z => (nth (Z.to_nat (idx - 1)) (Elbow.wce e) 0
                               + nth (Z.to_nat (idx + 1)) (Elbow.wce e) 0)%Q)
                <$> Elbow.range 1 (Z.of_nat (length (Elbow.wce e)) - 1)))
          (Elbow.kvalue e)).
Proof.
  unfold Elbow.calculate_elbows.
  set (w := Elbow.wce e).
  set (g := fun idx : Z => (nth (Z.to_nat (idx - 1)) w 0 + nth (Z.to_nat (idx + 1)) w 0)%Q).
  assert (Hm : mapM (fun index_elbow =>
                 a ← getitem_Z w (index_elbow - 1);
                 b ← getitem_Z w (index_elbow + 1);
                 Ok (a + b)%Q) (Elbow.range 1 (Z.of_nat (length w) - 1))
               = Ok (g <$> Elbow.range 1 (Z.of_nat (length w) - 1))).
  { apply mapM_Ok_fmap. intros idx Hidx. apply range_elem in Hidx.
    destruct (lookup_lt_is_Some_2 w (Z.to_nat (idx - 1))) as [a Ha]; [lia|].
    destruct (lookup_lt_is_Some_2 w (Z.to_nat (idx + 1))) as [b Hb]; [lia|].
    rewrite (getitem_Z_nonneg w (idx - 1) a) by (done || lia). rewrite bind_Ok_l.
    rewrite (getitem_Z_nonneg w (idx + 1) b) by (done || lia). rewrite bind_Ok_l.
    unfold g. by rewrite (nth_lookup_Some _ _ _ _ Ha), (nth_lookup_Some _ _ _ _ Hb). }
  by rewrite Hm, bind_Ok_l.
Qed.

(** X20.  [__calculate_elbows] never fails: it appends one value for each
    index that has a predecessor and a successor in the list of errors, the
    sum of the errors at this predecessor and this successor; for fewer than
    three errors it appends nothing. *)
Theorem calculate_elbows_sums_neighbours (e : Elbow.elbow) :
  exists new,
    Elbow.calculate_elbows e
    = Ok (Elbow.mk_elbow (Elbow.data e) (Elbow.kmin e) (Elbow.kmax e) (Elbow.wce e)
            (Elbow.elbows e ++ new) (Elbow.kvalue e)) /\
    length new = length (Elbow.wce e) - 2 /\
    forall i, i < length new ->
      exists a b, Elbow.wce e !! i = Some a /\ Elbow.wce e !! (i + 2) = Some b /\
                  new !! i = Some (a + b)%Q.
Proof.
  rewrite calculate_elbows_values. eexists. split; [done|].
  rewrite length_fmap, range_length. split; [lia|].
  intros i Hi.
  destruct (lookup_lt_is_Some_2 (Elbow.wce e) i) as [a Ha]; [lia|].
  destruct (lookup_lt_is_Some_2 (Elbow.wce e) (i + 2)) as [b Hb]; [lia|].
  exists a, b. do 2 (split; [done|]).
  rewrite list_lookup_fmap, range_lookup by done. simpl.
  replace (Z.to_nat (1 + Z.of_nat i - 1)) with i by lia.
  replace (Z.to_nat (1 + Z.of_nat i + 1)) with (i + 2) by lia.
  by rewrite (nth_lookup_Some _ _ _ _ Ha), (nth_lookup_Some _ _ _ _ Hb).
Qed.

(** X21.  [__find_optimal_kvalue] on a list of elbows that is not empty sets
    the result to one more than the position of the first of the greatest
    elbows: no elbow is greater than the one at this position and every
    earlier one is strictly less; nothing else changes. *)
Theorem find_optimal_kvalue_first_maximum (e : Elbow.elbow) :
  Elbow.elbows e <> [] ->
  exists i v,
    Elbow.find_optimal_kvalue e
    = Ok (Elbow.mk_elbow (Elbow.data e) (Elbow.kmin e) (Elbow.kmax e) (Elbow.wce e)
            (Elbow.elbows e) (Z.of_nat i + 1)) /\
    Elbow.elbows e !! i = Some v /\
    Forall (fun x => (x <= v)%Q) (Elbow.elbows e) /\
    forall j y, j < i -> Elbow.elbows e !! j = Some y -> (y < v)%Q.
Proof.
  intros Hne. unfold Elbow.find_optimal_kvalue.
  destruct (py_max_spec (Elbow.elbows e) Hne) as (v & Hv & Hin & Hall).
  destruct (py_index_spec v (Elbow.elbows e) Hin) as (i & x & Hi & Hx & Hxv & Hbefore).
  rewrite Hv, bind_Ok_l, Hi, bind_Ok_l. exists i, x. split; [done|]. split; [done|].
  split.
  - eapply Forall_impl; [exact Hall|]. intros y Hy. simpl in Hy. by rewrite Hxv.
  - intros j y Hj Hy. rewrite Hxv.
    assert (Hle : (y <= v)%Q).
    { rewrite Forall_forall in Hall. apply Hall. by eapply list_elem_of_lookup_2. }
    apply Qle_lteq in Hle as [Hlt|Heq]; [done|].
    exfalso. by apply (Hbefore j y).
Qed.

Lemma find_optimal_kvalue_first_maximum_witness :
  exists i v,
    Elbow.find_optimal_kvalue (Elbow.mk_elbow [] 1 5 [9; 4; 2; 1]%Q [11; 5]%Q (-1))
    = Ok (Elbow.mk_elbow [] 1 5 [9; 4; 2; 1]%Q [11; 5]%Q (Z.of_nat i + 1)) /\
    [11; 5]%Q !! i = Some v /\
    Forall (fun x => (x <= v)%Q) [11; 5]%Q.
Proof.
  destruct (find_optimal_kvalue_first_maximum
              (Elbow.mk_elbow [] 1 5 [9; 4; 2; 1]%Q [11; 5]%Q (-1)))
    as (i & v & He & Hv & Hall & _); [discriminate|].
  exists i, v. split; [exact He|]. split; [exact Hv|exact Hall].
Defined.

(** X22.  [process()] of the elbow method.  When [kmax - kmin] is at least
    three, so that the constructor accepts it, and k-means succeeds for each
    K, [process()] returns, [get_wce()] has one error for each K from [kmin]
    to [kmax - 1], and [get_amount()] is a position in the list of elbows
    counted from one: it lies between [1] and [kmax - kmin - 2], whatever
    [kmin] is. *)
Theorem elbow_amount_is_a_position (total_wce : list point -> Z -> result Q)
    (data : list point) (kmin kmax : Z) :
  (3 <= kmax - kmin)%Z ->
  (forall amount, (kmin <= amount < kmax)%Z -> is_Ok (total_wce data amount)) ->
  exists e e',
    Elbow.elbow_init data kmin kmax = Ok e /\
    Elbow.process total_wce e = Ok e' /\
    length (Elbow.get_wce e') = Z.to_nat (kmax - kmin) /\
    (1 <= Elbow.get_amount e' <= kmax - kmin - 2)%Z.
Proof.
  intros Hk Hwce.
  destruct (mapM_is_Ok (total_wce data) (Elbow.range kmin kmax)) as [new Hnew].
  { intros amount Ha. apply Hwce. by apply range_elem. }
  pose proof (mapM_result_length _ _ _ Hnew) as Hlen. rewrite range_length in Hlen.
  pose proof (calculate_elbows_values (Elbow.mk_elbow data kmin kmax new [] (-1))) as Hel.
  simpl in Hel.
  set (el := (fun idx : Z => (nth (Z.to_nat (idx - 1)) new 0
                              + nth (Z.to_nat (idx + 1)) new 0)%Q)
               <$> Elbow.range 1 (Z.of_nat (length new) - 1)) in Hel.
  assert (Hellen : length el = length new - 2).
  { unfold el. rewrite length_fmap, range_length. lia. }
  destruct (py_max_spec el) as (v & Hv & Hin & _).
  { intros Hnil. rewrite Hnil in Hellen. simpl in Hellen. lia. }
  destruct (py_index_spec v el Hin) as (i & x & Hi & Hx & _).
  exists (Elbow.mk_elbow data kmin kmax [] [] (-1)),
         (Elbow.mk_elbow data kmin kmax new el (Z.of_nat i + 1)).
  split.
  { unfold Elbow.elbow_init. by destruct (Z.ltb_spec (kmax - kmin) 3) as [|_]; [lia|]. }
  split.
  { unfold Elbow.process. simpl. rewrite Hnew, bind_Ok_l, Hel, bind_Ok_l.
    unfold Elbow.find_optimal_kvalue. simpl. by rewrite Hv, bind_Ok_l, Hi. }
  split; [done|]. simpl.
  apply lookup_lt_Some in Hx. lia.
Qed.

Lemma elbow_amount_is_a_position_witness :
  exists e e',
    Elbow.elbow_init [] 1 5 = Ok e /\
    Elbow.process (fun _ amount => Ok (12 / inject_Z amount)%Q) e = Ok e' /\
    length (Elbow.get_wce e') = 4 /\
    (1 <= Elbow.get_amount e' <= 2)%Z.
Proof.
  apply (elbow_amount_is_a_position (fun _ amount => Ok (12 / inject_Z amount)%Q) [] 1 5).
  - lia.
  - intros amount _. by eexists.
Defined.

(** * The loop of lines 120-152, cluster by cluster *)

Section RepairCases.

Variable euclidean_distance : point -> point -> Q.
Context {T : Type} `{SpatialIndex T}.

Local Abbreviation repair_item := (repair_item euclidean_distance).
Local Abbreviation repair := (repair euclidean_distance).
Local Abbreviation cluster_distance := (cluster_distance euclidean_distance).

(** The turn of [item] in the loop, seen from the whole loop: the store
    [ha] in which it starts has the record of [item] as it was before the
    loop, and the later turns leave the record alone. *)
Lemma repair_focus tr c1 c2 m (h : heap) q item :
  NoDup q -> item ∈ q -> m ∉ q ->
  exists ha ra,
    ha !!! item = h !!! item /\ body <$> ha = body <$> h /\ (item ∉ ra) /\
    (repair tr c1 c2 m h q).1 !!! item
    = (repair_item tr c1 c2 m (ha, ra) item).1 !!! item /\
    (item ∈ (repair tr c1 c2 m h q).2 <->
     item ∈ (repair_item tr c1 c2 m (ha, ra) item).2).
Proof.
  intros Hnd Hin Hm.
  assert (Hne : m <> item) by (intros ->; done).
  unfold repair. destruct q as [|first q0]; [by apply elem_of_nil in Hin|].
  match goal with |- context [foldl _ (?x, [])] => set (h0 := x) end.
  assert (Hb0 : body <$> h0 = body <$> h).
  { unfold h0. rewrite !update_body; [done| |]; by intros ?. }
  assert (H0 : h0 !!! item = h !!! item).
  { unfold h0. by rewrite !update_lookup_ne. }
  clearbody h0. revert Hnd Hin Hm. generalize (first :: q0). clear first q0.
  intros q Hnd Hin Hm.
  apply list_elem_of_split in Hin as (l1 & l2 & ->).
  apply NoDup_app in Hnd as (_ & Hl1 & Hnd2).
  apply NoDup_cons in Hnd2 as [Hl2 _].
  assert (Hn1 : item ∉ l1) by (intros Hi; apply (Hl1 _ Hi); by left).
  rewrite foldl_app, foldl_step.
  destruct (foldl (repair_item tr c1 c2 m) (h0, []) l1) as [ha ra] eqn:Ea.
  assert (Ha : ha = (foldl (repair_item tr c1 c2 m) (h0, []) l1).1) by by rewrite Ea.
  assert (Hra : ra = (foldl (repair_item tr c1 c2 m) (h0, []) l1).2) by by rewrite Ea.
  exists ha, ra. split.
  { rewrite Ha, repair_items_other; done. }
  split. { by rewrite Ha, repair_items_body. }
  assert (Hnra : item ∉ ra).
  { destruct (repair_items_requests euclidean_distance tr c1 c2 m l1 h0 [])
      as (asked & Hasked & Hsub).
    rewrite Hra, Hasked. simpl. intros Hi. apply Hn1.
    by apply (sublist_subseteq _ _ Hsub). }
  split; [done|].
  destruct (repair_item tr c1 c2 m (ha, ra) item) as [hb rb] eqn:Eb.
  split.
  { by rewrite (repair_items_other euclidean_distance tr c1 c2 m l2 item hb rb). }
  destruct (repair_items_requests euclidean_distance tr c1 c2 m l2 hb rb)
    as (asked & -> & Hsub).
  simpl. rewrite elem_of_app. split; [|by left].
  intros [Hi|Hi]; [done|]. exfalso. apply Hl2. by apply (sublist_subseteq _ _ Hsub).
Qed.

Lemma repair_item_at tr c1 c2 m (h : heap) requests item :
  m <> item -> item < length h ->
  let d := cluster_distance (h !!! m) (h !!! item) in
  let removed := match closest (h !!! item) with
                 | Some c => Nat.eqb c c1 || Nat.eqb c c2
                 | None => false
                 end in
  (removed = true -> dist_ltb (distance (h !!! item)) d = false ->
   (repair_item tr c1 c2 m (h, requests) item).1 !!! item
   = set_distance d (set_closest (Some m) (h !!! item)) /\
   (repair_item tr c1 c2 m (h, requests) item).2 = requests ++ [item]) /\
  (removed = false -> dist_ltb d (distance (h !!! item)) = true ->
   (repair_item tr c1 c2 m (h, requests) item).1 !!! item
   = set_ditance d (set_closest (Some m) (h !!! item)) /\
   (repair_item tr c1 c2 m (h, requests) item).2 = requests ++ [item]) /\
  (removed = false -> dist_ltb d (distance (h !!! item)) = false ->
   (repair_item tr c1 c2 m (h, requests) item).1 !!! item = h !!! item /\
   (repair_item tr c1 c2 m (h, requests) item).2 = requests).
Proof.
  intros Hm Hi. cbn zeta. unfold repair_item.
  set (d := cluster_distance (h !!! m) (h !!! item)).
  set (h1 := if dist_ltb d (distance (h !!! m)) then _ else h).
  assert (H1 : h1 !!! item = h !!! item).
  { unfold h1. destruct (dist_ltb d _); [|done]. by rewrite !update_lookup_ne. }
  assert (Hl1 : item < length h1).
  { unfold h1. destruct (dist_ltb d _); [|done]. by rewrite !update_length. }
  rewrite H1.
  split; [|split]; intros -> ->; simpl.
  - rewrite !update_lookup_eq by by rewrite ?update_length. by rewrite H1.
  - rewrite !update_lookup_eq by by rewrite ?update_length. by rewrite H1.
  - done.
Qed.

End RepairCases.

(** X23.  The branch of line 148, for a cluster of the queue whose neighbour
    was not merged.  When the merged cluster is strictly nearer than its
    cached distance, the cluster is asked to be relocated, its [closest]
    becomes the merged cluster and the new distance is stored under
    [ditance], while [distance] keeps its old value; otherwise the cluster
    is left as it was and is not relocated. *)
Theorem nearer_merged_cluster_leaves_cached_distance
    (euclidean_distance : point -> point -> Q) {T : Type} `{SpatialIndex T}
    (tr : T) (cluster1 cluster2 merged : ident) (h : heap) (q : list ident)
    (item : ident) :
  NoDup q -> item ∈ q -> merged ∉ q -> item < length h ->
  closest (h !!! item) <> Some cluster1 -> closest (h !!! item) <> Some cluster2 ->
  let d := cluster_distance euclidean_distance (h !!! merged) (h !!! item) in
  let h' := (repair euclidean_distance tr cluster1 cluster2 merged h q).1 in
  let requests := (repair euclidean_distance tr cluster1 cluster2 merged h q).2 in
  if dist_ltb d (distance (h !!! item))
  then item ∈ requests /\ closest (h' !!! item) = Some merged /\
       distance (h' !!! item) = distance (h !!! item) /\
       ditance (h' !!! item) = Some d
  else (item ∉ requests) /\ h' !!! item = h !!! item.
Proof.
  intros Hnd Hin Hm Hi H1 H2. cbn zeta.
  assert (Hne : merged <> item) by (intros ->; done).
  destruct (repair_focus euclidean_distance tr cluster1 cluster2 merged h q item
              Hnd Hin Hm) as (ha & ra & Ha & Hb & Hnra & -> & Hreq).
  assert (Hia : item < length ha) by by rewrite (body_length _ _ Hb).
  destruct (repair_item_at euclidean_distance tr cluster1 cluster2 merged ha ra item
              Hne Hia) as (_ & Hlt & Hge).
  assert (Hd : cluster_distance euclidean_distance (ha !!! merged) (ha !!! item)
               = cluster_distance euclidean_distance (h !!! merged) (h !!! item)).
  { apply cluster_distance_rep; by apply body_rep. }
  rewrite Hd, Ha in Hlt, Hge.
  assert (Hrem : match closest (h !!! item) with
                 | Some c => Nat.eqb c cluster1 || Nat.eqb c cluster2
                 | None => false
                 end = false).
  { destruct (closest (h !!! item)) as [c0|]; [|done].
    apply orb_false_iff. split; apply Nat.eqb_neq; congruence. }
  destruct (dist_ltb _ (distance (h !!! item))) eqn:E.
  - destruct (Hlt Hrem eq_refl) as [Hrec Hr]. rewrite Hrec. split.
    + apply Hreq. rewrite Hr. apply elem_of_app. right. by left.
    + done.
  - destruct (Hge Hrem eq_refl) as [Hrec Hr]. rewrite Hrec. split; [|done].
    intros Hx. apply Hreq in Hx. by rewrite Hr in Hx.
Qed.

Lemma nearer_merged_cluster_leaves_cached_distance_witness :
  exists (h h' : heap) (tr : list_index) (requests : list ident),
    distance (h !!! 0) = Fin 2 /\
    cluster_distance euclidean_distance_1d (h !!! 2) (h !!! 0) = Fin 1 /\
    repair euclidean_distance_1d (H := list_index_ops euclidean_distance_1d)
      tr 5 6 2 h [0; 1] = (h', requests) /\
    0 ∈ requests /\ closest (h' !!! 0) = Some 2 /\
    distance (h' !!! 0) = Fin 2 /\ ditance (h' !!! 0) = Some (Fin 1).
Proof.
  exists [mk_cluster [[0]%Q] (Some [0]%Q) [[0]%Q] (Some 1) (Fin 2) None;
          mk_cluster [[-2]%Q] (Some [-2]%Q) [[-2]%Q] (Some 0) (Fin 2) None;
          mk_cluster [[1]; [1]]%Q (Some [1]%Q) [[1]%Q] None Inf None].
  eexists. exists [([0]%Q, 0); ([-2]%Q, 1); ([1]%Q, 2)]. eexists.
  split; [reflexivity|]. split; [reflexivity|]. split; [apply surjective_pairing|].
  match goal with
  | |- context [repair _ ?tr ?c1 ?c2 ?m ?h ?q] =>
      pose proof (nearer_merged_cluster_leaves_cached_distance euclidean_distance_1d
                    (H := list_index_ops euclidean_distance_1d) tr c1 c2 m h q 0) as Hw
  end.
  apply Hw.
  - by apply (bool_decide_unpack _).
  - by apply (bool_decide_unpack _).
  - by apply (bool_decide_unpack _).
  - simpl. lia.
  - discriminate.
  - discriminate.
Defined.

(** X24.  The branch of lines 142-145, for a cluster of the queue whose
    neighbour was one of the two merged clusters and whose cached distance is
    not less than its distance to the merged cluster: the merged cluster
    becomes its neighbour, the distance to it becomes its cached distance,
    and the cluster is asked to be relocated. *)
Theorem merged_neighbour_is_replaced (euclidean_distance : point -> point -> Q)
    {T : Type} `{SpatialIndex T}
    (tr : T) (cluster1 cluster2 merged : ident) (h : heap) (q : list ident)
    (item : ident) :
  NoDup q -> item ∈ q -> merged ∉ q ->
  closest (h !!! item) = Some cluster1 \/ closest (h !!! item) = Some cluster2 ->
  dist_ltb (distance (h !!! item))
    (cluster_distance euclidean_distance (h !!! merged) (h !!! item)) = false ->
  item ∈ (repair euclidean_distance tr cluster1 cluster2 merged h q).2 /\
  closest ((repair euclidean_distance tr cluster1 cluster2 merged h q).1 !!! item)
  = Some merged /\
  distance ((repair euclidean_distance tr cluster1 cluster2 merged h q).1 !!! item)
  = cluster_distance euclidean_distance (h !!! merged) (h !!! item).
Proof.
  intros Hnd Hin Hm Hc Hge.
  assert (Hne : merged <> item) by (intros ->; done).
  assert (Hi : item < length h).
  { destruct Hc as [Hc|Hc]; by eapply lookup_total_closest_Some. }
  destruct (repair_focus euclidean_distance tr cluster1 cluster2 merged h q item
              Hnd Hin Hm) as (ha & ra & Ha & Hb & Hnra & -> & Hreq).
  assert (Hia : item < length ha) by by rewrite (body_length _ _ Hb).
  destruct (repair_item_at euclidean_distance tr cluster1 cluster2 merged ha ra item
              Hne Hia) as (Hcase & _).
  assert (Hd : cluster_distance euclidean_distance (ha !!! merged) (ha !!! item)
               = cluster_distance euclidean_distance (h !!! merged) (h !!! item)).
  { apply cluster_distance_rep; by apply body_rep. }
  rewrite Hd, Ha in Hcase.
  destruct Hcase as [Hrec Hr]; [|done|].
  { destruct Hc as [-> | ->]; rewrite Nat.eqb_refl; [done|apply orb_true_r]. }
  rewrite Hrec. split; [|done].
  apply Hreq. rewrite Hr. apply elem_of_app. right. by left.
Qed.

Lemma merged_neighbour_is_replaced_witness :
  exists (h h' : heap) (tr : list_index) (requests : list ident),
    closest (h !!! 0) = Some 5 /\ distance (h !!! 0) = Fin 2 /\
    repair euclidean_distance_1d (H := list_index_ops euclidean_distance_1d)
      tr 5 6 2 h [0; 1] = (h', requests) /\
    0 ∈ requests /\ closest (h' !!! 0) = Some 2 /\ distance (h' !!! 0) = Fin 1.
Proof.
  exists [mk_cluster [[0]%Q] (Some [0]%Q) [[0]%Q] (Some 5) (Fin 2) None;
          mk_cluster [[-2]%Q] (Some [-2]%Q) [[-2]%Q] (Some 0) (Fin 2) None;
          mk_cluster [[1]; [1]]%Q (Some [1]%Q) [[1]%Q] None Inf None].
  eexists. exists [([0]%Q, 0); ([-2]%Q, 1); ([1]%Q, 2)]. eexists.
  split; [reflexivity|]. split; [reflexivity|]. split; [apply surjective_pairing|].
  match goal with
  | |- context [repair _ ?tr ?c1 ?c2 ?m ?h ?q] =>
      pose proof (merged_neighbour_is_replaced euclidean_distance_1d
                    (H := list_index_ops euclidean_distance_1d) tr c1 c2 m h q 0) as Hw
  end.
  apply Hw.
  - by apply (bool_decide_unpack _).
  - by apply (bool_decide_unpack _).
  - by apply (bool_decide_unpack _).
  - by left.
  - reflexivity.
Defined.
